(** * codemirror-promql: the hybrid completion resolver and the
      language-server client, embedded in Rocq.

    The development follows the two source files:
    - [complete/hybrid.ts] (class [HybridComplete]): the classification of
      the syntax node under the cursor and the assembly of the completion
      result;
    - the language-server client (class [LSPClient]).

    Offsets are JavaScript integers, modelled as [Z].  A promise is modelled
    by the way it settles.  What the editor and the parser provide
    ([state.tree.resolve], [state.sliceDoc], [state.doc.lineAt],
    [context.filter]) is taken as data of the editor state and of the
    completion context. *)

From Stdlib Require Import List String ZArith Lia Bool.
Import ListNotations.
Local Open Scope Z_scope.
Local Open Scope string_scope.

Set Implicit Arguments.
Set Warnings "-register-all".

(** ** Promises *)

(** A promise, observed once settled: fulfilled with a value or rejected
    with a reason. *)
Inductive Promise (A : Type) : Type :=
| Resolved (value : A)
| Rejected (reason : string).

Arguments Resolved {A} value.
Arguments Rejected {A} reason.

(** [p.then(f)]: [f] runs on the fulfilled value, a rejection goes through
    untouched. *)
Definition then_ {A B : Type} (p : Promise A) (f : A -> B) : Promise B :=
  match p with
  | Resolved a => Resolved (f a)
  | Rejected e => Rejected e
  end.

(** ** Syntax tree (lezer-tree [Subtree]) *)

(** The node types of lezer-promql that the resolver names.  [ErrorNode] is
    the parser's error type, whose id is 0; every other grammar term is
    some [OtherNode n]. *)
Inductive NodeType : Type :=
| ErrorNode
| AggregateOp
| BinaryExpr
| FunctionIdentifier
| GroupingLabel
| GroupingLabels
| Identifier
| LabelMatcher
| LabelMatchers
| LabelName
| MetricIdentifier
| StringLiteral
| VectorSelector
| MatchOp
| OtherNode (n : nat).

Definition NodeType_eq_dec (a b : NodeType) : {a = b} + {a <> b}.
Proof. decide equality. apply Nat.eq_dec. Defined.

Definition same_type (a b : NodeType) : bool :=
  if NodeType_eq_dec a b then true else false.

(** A parsed node: type, extent, children in document order. *)
Inductive Tree : Type :=
| Node (ty : NodeType) (from_ to_ : Z) (children : list Tree).

Definition tree_type (t : Tree) : NodeType := let 'Node ty _ _ _ := t in ty.
Definition tree_start (t : Tree) : Z := let 'Node _ a _ _ := t in a.
Definition tree_end (t : Tree) : Z := let 'Node _ _ b _ := t in b.
Definition tree_children (t : Tree) : list Tree := let 'Node _ _ _ cs := t in cs.

(** A [Subtree] is a node together with the chain of nodes that enclose it,
    nearest first; an empty chain means the node is the root. *)
Record Subtree : Type := mkSubtree {
  node : Tree;
  ancestors : list Tree
}.

Definition type_id (s : Subtree) : NodeType := tree_type (node s).
Definition start (s : Subtree) : Z := tree_start (node s).
Definition end_ (s : Subtree) : Z := tree_end (node s).

Definition parent (s : Subtree) : option Subtree :=
  match ancestors s with
  | [] => None
  | p :: rest => Some (mkSubtree p rest)
  end.

Definition firstChild (s : Subtree) : option Subtree :=
  match tree_children (node s) with
  | [] => None
  | c :: _ => Some (mkSubtree c (node s :: ancestors s))
  end.

Definition lastChild (s : Subtree) : option Subtree :=
  match rev (tree_children (node s)) with
  | [] => None
  | c :: _ => Some (mkSubtree c (node s :: ancestors s))
  end.

(** [x?.type.id === T]: false when [x] is absent. *)
Definition has_type (x : option Subtree) (T : NodeType) : bool :=
  match x with
  | Some s => same_type (type_id s) T
  | None => false
  end.

(** [x?.parent] *)
Definition parent_of (x : option Subtree) : option Subtree :=
  match x with
  | Some s => parent s
  | None => None
  end.

(** ** Editor state and completion context *)

Record Line : Type := mkLine {
  line_from : Z;
  line_number : Z
}.

(** [state.doc]: the text, by its two accessors the clients use. *)
Record Text : Type := mkText {
  lineAt : Z -> Line;
  sliceString : Z -> string
}.

Record EditorState : Type := mkEditorState {
  resolve : Z -> Z -> Subtree;      (* state.tree.resolve(pos, side) *)
  sliceDoc : Z -> Z -> string;      (* state.sliceDoc(from, to) *)
  doc : Text
}.

(** How a completion is applied: a plain text, or a snippet template. *)
Inductive Apply : Type :=
| ApplyText (text : string)
| ApplySnippet (template : string).

Record Completion : Type := mkCompletion {
  label : string;
  original : string;
  apply : Apply;
  completion_type : option string;
  score : Z
}.

Record CompletionResult : Type := mkCompletionResult {
  from : Z;
  to : Z;
  options : list Completion;
  filterDownOn : string
}.

Record AutocompleteContext : Type := mkContext {
  state : EditorState;
  pos : Z;
  filter : Completion -> string -> option Completion
}.

(** ** Static tables of [hybrid.ts] *)

Record AutoCompleteNode : Type := mkAutoCompleteNode {
  labels : list string;
  type : string
}.

(** The term lists of [promql.terms], which the resolver imports. *)
Record PromQLTerms : Type := mkTerms {
  matchOpTerms : list string;
  binOpTerms : list string;
  binOpModifierTerms : list string;
  functionIdentifierTerms : list string;
  aggregateOpTerms : list string;
  aggregateOpModifierTerms : list string
}.

Record SnippetSpec : Type := mkSnippetSpec {
  name : option string;
  keyword : string;
  snippet : string
}.

(** The double-quote character, and a word between double quotes. *)
Definition dquote : string :=
  String (Ascii.Ascii false true false false false true false false) EmptyString.

Definition quoted (w : string) : string := dquote ++ w ++ dquote.

Definition snippets : list SnippetSpec :=
  [ mkSnippetSpec None
      "sum(rate(__input_vector__[5m]))"
      "sum(rate(${__input_vector__}[5m]))";
    mkSnippetSpec None
      "histogram_quantile(__quantile__, sum by(le) (rate(__histogram_metric__[5m])))"
      "histogram_quantile(${__quantile__}, sum by(le) (rate(${__histogram_metric__}[5m])))";
    mkSnippetSpec None
      ("label_replace(__input_vector__, " ++ quoted "__dst__" ++ ", "
         ++ quoted "__replacement__" ++ ", " ++ quoted "__src__" ++ ", "
         ++ quoted "__regex__" ++ ")")
      ("label_replace(${__input_vector__}, " ++ quoted "${__dst__}" ++ ", "
         ++ quoted "${__replacement__}" ++ ", " ++ quoted "${__src__}" ++ ", "
         ++ quoted "${__regex__}" ++ ")")
  ].

(** [s.name || s.keyword]: the name when present and not empty. *)
Definition nameOrKeyword (s : SnippetSpec) : string :=
  match name s with
  | Some n => if String.eqb n EmptyString then keyword s else n
  | None => keyword s
  end.

(** [parsedSnippets]: the snippets as completions, built once. *)
Definition parsedSnippets : list Completion :=
  map (fun s =>
         {| label := nameOrKeyword s;
            original := nameOrKeyword s;
            apply := ApplySnippet (snippet s);
            completion_type := None;
            score := 0 |})
      snippets.

(** ** The metadata client, as the resolver calls it *)

Record PrometheusClient : Type := mkClient {
  labelNames : option string -> Promise (list string);
  labelValues : string -> option string -> Promise (list string)
}.

(** What [promQL] hands back: [null], a result, or a promise of one. *)
Inductive Completed : Type :=
| NoCompletion
| Sync (result : CompletionResult)
| Async (result : Promise CompletionResult).

(** Modelled from the spec: [walkBackward] of [parser/path-finder], which the
    resolver imports and whose code is not among the sources.  It ascends
    through the parent links until a node of the wanted type is found; at
    the root without a match the answer is "not found". *)
Fixpoint walkBackwardIn (up : list Tree) (exit : NodeType) : option Subtree :=
  match up with
  | [] => None
  | p :: rest =>
      if same_type (tree_type p) exit then Some (mkSubtree p rest)
      else walkBackwardIn rest exit
  end.

Definition walkBackward (n : Subtree) (exit : NodeType) : option Subtree :=
  walkBackwardIn (ancestors n) exit.

(** Modelled from the spec: [walkThrough] of [parser/path-finder], likewise
    absent from the sources.  It descends from a node through the given
    chain of child types and returns the last node of the chain, or "not
    found" as soon as a link has no child of the expected type. *)
Fixpoint walkThrough (n : Subtree) (path : list NodeType) : option Subtree :=
  match path with
  | [] => Some n
  | ty :: rest =>
      match find (fun c => same_type (tree_type c) ty) (tree_children (node n)) with
      | Some c => walkThrough (mkSubtree c (node n :: ancestors n)) rest
      | None => None
      end
  end.

(** ** class HybridComplete *)

Module HybridComplete.
Section Methods.

Variable terms : PromQLTerms.

(** [autocompleteNode]: each grammatical category with its display kind. *)
Definition matchOp := mkAutoCompleteNode (matchOpTerms terms) EmptyString.
Definition binOp := mkAutoCompleteNode (binOpTerms terms) EmptyString.
Definition binOpModifier := mkAutoCompleteNode (binOpModifierTerms terms) "keyword".
Definition functionIdentifier :=
  mkAutoCompleteNode (functionIdentifierTerms terms) "function".
Definition aggregateOp := mkAutoCompleteNode (aggregateOpTerms terms) "keyword".
Definition aggregateOpModifier :=
  mkAutoCompleteNode (aggregateOpModifierTerms terms) "keyword".

(** The constructor's argument: the client, or [undefined]. *)
Variable prometheusClient : option PrometheusClient.

(** The completion built for one label of a category. *)
Definition termCompletion (ty : string) (l : string) : Completion :=
  {| label := l;
     original := l;
     apply := ApplyText l;
     completion_type := Some ty;
     score := 0 |}.

(** One turn of either loop: filter the candidate, push it when kept. *)
Definition pushFiltered (context : AutocompleteContext) (text : string)
    (options : list Completion) (c : Completion) : list Completion :=
  match filter context c text with
  | Some completionResult => options ++ [completionResult]
  | None => options
  end.

Definition arrayToCompletionResult (data : list AutoCompleteNode)
    (from_ to_ : Z) (context : AutocompleteContext) (state_ : EditorState)
    (includeSnippet : bool) : CompletionResult :=
  let text := sliceDoc state_ from_ to_ in
  let options0 :=
    fold_left
      (fun opts completionList =>
         fold_left
           (fun opts' l =>
              pushFiltered context text opts' (termCompletion (type completionList) l))
           (labels completionList) opts)
      data [] in
  let options1 :=
    if includeSnippet
    then fold_left (pushFiltered context text) parsedSnippets options0
    else options0 in
  {| from := from_;
     to := to_;
     options := options1;
     filterDownOn := "^[a-zA-Z0-9_:]+$" |}.

Definition getMetricNameInVectorSelector (tree : Subtree) (state_ : EditorState)
    : string :=
  match walkBackward tree VectorSelector with
  | None => EmptyString
  | Some currentNode =>
      match walkThrough currentNode [MetricIdentifier; Identifier] with
      | None => EmptyString
      | Some currentNode' =>
          sliceDoc state_ (start currentNode') (end_ currentNode')
      end
  end.

Definition labelNames (tree : Subtree) (pos_ : Z) (context : AutocompleteContext)
    (state_ : EditorState) (metricName : option string) : Completed :=
  match prometheusClient with
  | None => NoCompletion
  | Some client =>
      Async (then_ (labelNames client metricName)
               (fun names =>
                  arrayToCompletionResult
                    [ mkAutoCompleteNode names "constant" ]
                    (if same_type (type_id tree) GroupingLabels
                        || same_type (type_id tree) LabelMatchers
                     then start tree + 1 else start tree)
                    pos_ context state_ false))
  end.

Definition autocompleteLabelNamesByMetric (tree : Subtree) (pos_ : Z)
    (context : AutocompleteContext) (state_ : EditorState) : Completed :=
  labelNames tree pos_ context state_
    (Some (getMetricNameInVectorSelector tree state_)).

Definition autocompleteLabelValue (parent_ current : Subtree) (pos_ : Z)
    (context : AutocompleteContext) (state_ : EditorState) : Completed :=
  match prometheusClient with
  | None => NoCompletion
  | Some client =>
      let labelName :=
        match firstChild parent_ with
        | Some fc =>
            if same_type (type_id fc) LabelName
            then sliceDoc state_ (start fc) (end_ fc)
            else EmptyString
        | None => EmptyString
        end in
      let metricName := getMetricNameInVectorSelector current state_ in
      Async (then_ (labelValues client labelName (Some metricName))
               (fun values =>
                  arrayToCompletionResult
                    [ mkAutoCompleteNode values "text" ]
                    (start current + 1) pos_ context state_ false))
  end.

(** The candidates of the metric-name branch that need no metadata
    (the local [nonMetricCompletions] of [promQL]). *)
Definition nonMetricCompletions (tree : Subtree) : list AutoCompleteNode :=
  let base := [functionIdentifier; aggregateOp; binOp] in
  if has_type (parent_of (parent_of (parent_of (parent tree)))) BinaryExpr
  then base ++ [binOpModifier]
  else base.

Definition promQL (context : AutocompleteContext) : Completed :=
  let state_ := state context in
  let pos_ := pos context in
  let tree := resolve state_ pos_ (-1) in
  if has_type (parent tree) MetricIdentifier && same_type (type_id tree) Identifier
  then
    match prometheusClient with
    | Some client =>
        Async (then_ (labelValues client "__name__" None)
                 (fun metricNames =>
                    arrayToCompletionResult
                      ([ mkAutoCompleteNode metricNames "constant" ]
                         ++ nonMetricCompletions tree)
                      (start tree) pos_ context state_ true))
    | None =>
        Sync (arrayToCompletionResult (nonMetricCompletions tree)
                (start tree) pos_ context state_ true)
    end
  else if same_type (type_id tree) GroupingLabels
          || (has_type (parent tree) GroupingLabel
              && same_type (type_id tree) LabelName)
  then labelNames tree pos_ context state_ None
  else if same_type (type_id tree) LabelMatchers
          || (has_type (parent tree) LabelMatcher
              && same_type (type_id tree) LabelName)
  then autocompleteLabelNamesByMetric tree pos_ context state_
  else if has_type (parent tree) LabelMatcher
          && same_type (type_id tree) StringLiteral
  then
    match parent tree with
    | Some parent_ => autocompleteLabelValue parent_ tree pos_ context state_
    | None => NoCompletion
    end
  else if same_type (type_id tree) LabelMatcher
          && has_type (firstChild tree) LabelName
          && has_type (lastChild tree) ErrorNode
          && match lastChild tree with
             | Some lc => match firstChild lc with None => true | Some _ => false end
             | None => false
             end
  then
    match lastChild tree with
    | Some lc =>
        Sync (arrayToCompletionResult [matchOp] (start lc) pos_ context state_ false)
    | None => NoCompletion
    end
  else if same_type (type_id tree) MatchOp || has_type (parent tree) MatchOp
  then Sync (arrayToCompletionResult [matchOp] (start tree) pos_ context state_ false)
  else if has_type (parent tree) BinaryExpr
  then Sync (arrayToCompletionResult [binOp] (start tree) pos_ context state_ false)
  else if has_type (parent tree) FunctionIdentifier
  then Sync (arrayToCompletionResult [functionIdentifier]
               (start tree) pos_ context state_ false)
  else if has_type (parent tree) AggregateOp
  then Sync (arrayToCompletionResult [aggregateOp]
               (start tree) pos_ context state_ false)
  else if (same_type (type_id tree) Identifier && has_type (parent tree) ErrorNode)
          || (same_type (type_id tree) ErrorNode
              && negb (has_type (parent tree) LabelMatchers))
  then Sync (arrayToCompletionResult ([aggregateOpModifier] ++ [binOp])
               (start tree) pos_ context state_ false)
  else NoCompletion.

End Methods.
End HybridComplete.

(** ** The remote metadata provider *)

Module RemoteClient.

  (** How a metadata request ends on the wire: no response at all, or a
      response with a status and a payload that parses to a sequence of
      strings or does not. *)
Inductive FetchOutcome : Type :=
| NetworkError
| HttpResponse (status : Z) (payload : option (list string)).

Definition is2xx (status : Z) : bool := ((200 <=? status) && (status <? 300))%Z.

(** A fetch failed: network error, status outside 2xx, malformed payload. *)
Definition fetchFailed (o : FetchOutcome) : bool :=
  match o with
  | NetworkError => true
  | HttpResponse status None => true
  | HttpResponse status (Some _) => negb (is2xx status)
  end.

(** The endpoint, by what it answers to each lookup. *)
Record Endpoint : Type := mkEndpoint {
  getLabelNames : option string -> FetchOutcome;
  getLabelValues : string -> option string -> FetchOutcome
}.

Definition parsed (o : FetchOutcome) : list string :=
  match o with
  | HttpResponse status (Some names) => if is2xx status then names else []
  | _ => []
  end.

(** Modelled from the spec: the remote query-engine backed
    [PrometheusClient] of [client/], which the resolver imports and whose
    code is not among the sources.  Both operations issue the request and
    parse a sequence of strings from the response; on a failed fetch the
    operation resolves to the empty sequence, it does not reject. *)
Definition remoteClient (e : Endpoint) : PrometheusClient :=
  {| labelNames := fun metricName => Resolved (parsed (getLabelNames e metricName));
     labelValues := fun labelName metricName =>
                      Resolved (parsed (getLabelValues e labelName metricName)) |}.

End RemoteClient.

(** ** class LSPClient *)

Module LSPClient.

Record Position : Type := mkPosition {
  line : Z;
  character : Z
}.

Record Range : Type := mkRange {
  range_start : Position;
  range_end : Position
}.

Record TextEdit : Type := mkTextEdit {
  range : Range;
  newText : string
}.

Record AutocompleteResponse : Type := mkAutocompleteResponse {
  label : string;
  textEdit : option TextEdit
}.

(** The request body posted to the server. *)
Record Body : Type := mkBody {
  expr : string;
  limit : Z;
  positionChar : Z;
  positionLine : Z
}.

(** The completion of this client carries a label only. *)
Record Completion : Type := mkCompletion {
  completion_label : string
}.

Record CompletionResult : Type := mkCompletionResult {
  from : Z;
  to : Z;
  options : list Completion
}.

(** [response.data]: a sequence of answers when it is iterable. *)
Record AxiosResponse : Type := mkAxiosResponse {
  data : option (list AutocompleteResponse)
}.

Section Methods.

Variable url : string.
(** [axios.post(url, body)] *)
Variable post : string -> Body -> Promise AxiosResponse.

Definition autocompleteEndpoint : string := "/completion".

(** The [body] built at the head of [autocomplete]. *)
Definition requestBody (context : AutocompleteContext) : Body :=
  let state_ := state context in
  let pos_ := pos context in
  let line_ := lineAt (doc state_) pos_ in
  {| expr := sliceString (doc state_) 0;
     limit := 100;
     positionChar :=
       if (pos_ - line_from line_ - 1 >? 0)%Z
       then pos_ - line_from line_ - 1
       else pos_ - line_from line_;
     positionLine := line_number line_ - 1 |}.

(** One turn of the loop over the answers: the label (or the edit's new
    text) is pushed, the last edit seen is kept. *)
Definition collect (acc : list Completion * option TextEdit)
    (res : AutocompleteResponse) : list Completion * option TextEdit :=
  let '(options_, textEdit_) := acc in
  match textEdit res with
  | Some te => ((options_ ++ [mkCompletion (newText te)])%list, Some te)
  | None => ((options_ ++ [mkCompletion (label res)])%list, textEdit_)
  end.

Definition autocomplete (context : AutocompleteContext)
    : Promise CompletionResult :=
  let state_ := state context in
  let pos_ := pos context in
  let line_ := lineAt (doc state_) pos_ in
  let body := requestBody context in
  then_ (post (url ++ autocompleteEndpoint) body)
    (fun response =>
       let '(options_, textEdit_) :=
         match data response with
         | Some answers => fold_left collect answers ([], None)
         | None => ([], None)
         end in
       {| from :=
            match textEdit_ with
            | Some te => line_from line_ + character (range_start (range te))
            | None => line_from line_
            end;
          to := pos_;
          options := options_ |}).

End Methods.

End LSPClient.

(** ** Vocabulary of the statements *)

(** The node the resolver classifies: [state.tree.resolve(pos, -1)]. *)
Definition resolved (context : AutocompleteContext) : Subtree :=
  resolve (state context) (pos context) (-1).

(** An invocation returns the result [r], at once or through its promise. *)
Definition returns (c : Completed) (r : CompletionResult) : Prop :=
  c = Sync r \/ c = Async (Resolved r).

(** The cursor is in an identifier whose parent is a metric identifier. *)
Definition atMetricIdentifier (t : Subtree) : Prop :=
  type_id t = Identifier /\
  exists p, parent t = Some p /\ type_id p = MetricIdentifier.

(** The resolved node is a list node: grouping labels or label matchers. *)
Definition atListNode (t : Subtree) : Prop :=
  type_id t = GroupingLabels \/ type_id t = LabelMatchers.

(** The resolved node is a bare label name inside one of the two lists. *)
Definition atLabelToken (t : Subtree) : Prop :=
  type_id t = LabelName /\
  exists p, parent t = Some p /\
            (type_id p = GroupingLabel \/ type_id p = LabelMatcher).

(** The resolved node is the string literal of a label matcher. *)
Definition atMatcherString (t : Subtree) : Prop :=
  type_id t = StringLiteral /\
  exists p, parent t = Some p /\ type_id p = LabelMatcher.

(** The fourth ancestor exists and is a binary expression. *)
Definition fourthAncestorIsBinaryExpr (t : Subtree) : Prop :=
  exists p1 p2 p3 p4,
    parent t = Some p1 /\ parent p1 = Some p2 /\ parent p2 = Some p3 /\
    parent p3 = Some p4 /\ type_id p4 = BinaryExpr.

(** The candidates of a list of categories, before filtering. *)
Definition candidates (data : list AutoCompleteNode) : list Completion :=
  flat_map (fun n => map (HybridComplete.termCompletion (type n)) (labels n)) data.

(** The candidates the host filter keeps against the typed text, in order. *)
Definition kept (context : AutocompleteContext) (text : string)
    (cs : list Completion) : list Completion :=
  flat_map (fun c => match filter context c text with
                     | Some r => [r]
                     | None => []
                     end) cs.

Definition isSnippet (c : Completion) : bool :=
  match apply c with
  | ApplySnippet _ => true
  | ApplyText _ => false
  end.

(** The host filter hands a kept candidate back with the way it is applied
    unchanged. *)
Definition filterKeepsApply (context : AutocompleteContext) : Prop :=
  forall c text c', filter context c text = Some c' -> apply c' = apply c.

(** The static candidates of the metric-name branch: terms of the four
    grammar tables with their display kind. *)
Definition staticTerm (terms : PromQLTerms) (c : Completion) : Prop :=
  exists l,
    (In l (functionIdentifierTerms terms)
     /\ c = HybridComplete.termCompletion "function" l)
    \/ (In l (aggregateOpTerms terms)
        /\ c = HybridComplete.termCompletion "keyword" l)
    \/ (In l (binOpTerms terms)
        /\ c = HybridComplete.termCompletion EmptyString l)
    \/ (In l (binOpModifierTerms terms)
        /\ c = HybridComplete.termCompletion "keyword" l).

(** The label shown for an answer: the new text of its edit when it has
    one. *)
Definition shownLabel (res : LSPClient.AutocompleteResponse) : string :=
  match LSPClient.textEdit res with
  | Some te => LSPClient.newText te
  | None => LSPClient.label res
  end.

(** The last edit among the answers, [te] when there is none. *)
Fixpoint lastEdit (answers : list LSPClient.AutocompleteResponse)
    (te : option LSPClient.TextEdit) : option LSPClient.TextEdit :=
  match answers with
  | [] => te
  | res :: rest =>
      lastEdit rest (match LSPClient.textEdit res with
                     | Some te' => Some te'
                     | None => te
                     end)
  end.

(** ** Concrete inputs *)

Module Sample.

  (** The term lists of PromQL, as an instance of the imported tables. *)
Definition terms : PromQLTerms :=
  {| matchOpTerms := ["="; "!="; "=~"; "!~"];
     binOpTerms := ["^"; "*"; "/"; "%"; "+"; "-"; "=="; ">="; ">"; "<"; "<=";
                    "!="; "and"; "or"; "unless"];
     binOpModifierTerms := ["on"; "ignoring"; "group_left"; "group_right"];
     functionIdentifierTerms := ["abs"; "ceil"; "floor"; "increase"; "irate";
                                 "label_replace"; "rate"; "round"; "sort"];
     aggregateOpTerms := ["avg"; "bottomk"; "count"; "count_values"; "group";
                          "max"; "min"; "quantile"; "stddev"; "stdvar"; "sum";
                          "topk"];
     aggregateOpModifierTerms := ["by"; "without"] |}.

(** A host filter: a candidate is kept when the typed text is a prefix of
    its label. *)
Definition prefixFilter (c : Completion) (text : string) : option Completion :=
  if String.prefix text (label c) then Some c else None.

Definition sliceOf (d : string) (a b : Z) : string :=
  substring (Z.to_nat a) (Z.to_nat (b - a)) d.

(** The subtree reached from [s] by the given child indices. *)
Fixpoint focus (s : Subtree) (path : list nat) : Subtree :=
  match path with
  | [] => s
  | i :: rest =>
      match nth_error (tree_children (node s)) i with
      | Some c => focus (mkSubtree c (node s :: ancestors s)) rest
      | None => s
      end
  end.

(** A one-line document whose tree resolves to the node at [path]. *)
Definition editor (d : string) (root : Tree) (path : list nat) : EditorState :=
  {| resolve := fun _ _ => focus (mkSubtree root []) path;
     sliceDoc := sliceOf d;
     doc := {| lineAt := fun _ => mkLine 0 1;
               sliceString := fun a => sliceOf d a (Z.of_nat (String.length d)) |} |}.

Definition PromQL := OtherNode 1.
Definition Expr := OtherNode 2.

(** [ra|]: a half-typed metric or function name. *)
Definition tree_ra : Tree :=
  Node PromQL 0 2
    [Node Expr 0 2
       [Node VectorSelector 0 2
          [Node MetricIdentifier 0 2 [Node Identifier 0 2 []]]]].

Definition ctx_ra : AutocompleteContext :=
  {| state := editor "ra" tree_ra [0; 0; 0; 0]%nat;
     pos := 2;
     filter := prefixFilter |}.

(** [foo{bar | !}]: the cursor between two blanks, before a lone [!]. *)
Definition tree_gap : Tree :=
  Node PromQL 0 11
    [Node Expr 0 11
       [Node VectorSelector 0 11
          [Node MetricIdentifier 0 3 [Node Identifier 0 3 []];
           Node LabelMatchers 3 11
             [Node LabelMatcher 4 10
                [Node LabelName 4 7 []; Node ErrorNode 9 10 []]]]]].

Definition ctx_gap : AutocompleteContext :=
  {| state := editor "foo{bar  !}" tree_gap [0; 0; 1; 0]%nat;
     pos := 8;
     filter := prefixFilter |}.

(** [sum by (|) (up)]: the empty grouping list. *)
Definition tree_by : Tree :=
  Node PromQL 0 14
    [Node Expr 0 14
       [Node (OtherNode 3) 0 14
          [Node AggregateOp 0 3 [Node (OtherNode 4) 0 3 []];
           Node (OtherNode 5) 4 9
             [Node (OtherNode 6) 4 6 []; Node GroupingLabels 7 9 []];
           Node (OtherNode 7) 10 14
             [Node Expr 11 13
                [Node VectorSelector 11 13
                   [Node MetricIdentifier 11 13 [Node Identifier 11 13 []]]]]]]].

Definition ctx_by : AutocompleteContext :=
  {| state := editor "sum by () (up)" tree_by [0; 0; 1; 1]%nat;
     pos := 8;
     filter := prefixFilter |}.

(** [up{job="pro|"}]: inside the value of a matcher. *)
Definition doc_value : string := "up{job=" ++ quoted "pro" ++ "}".

Definition tree_value : Tree :=
  Node PromQL 0 13
    [Node Expr 0 13
       [Node VectorSelector 0 13
          [Node MetricIdentifier 0 2 [Node Identifier 0 2 []];
           Node LabelMatchers 2 13
             [Node LabelMatcher 3 12
                [Node LabelName 3 6 [];
                 Node MatchOp 6 7 [];
                 Node StringLiteral 7 12 []]]]]].

Definition ctx_value : AutocompleteContext :=
  {| state := editor doc_value tree_value [0; 0; 1; 0; 2]%nat;
     pos := 11;
     filter := prefixFilter |}.

(** [up / ign|]: a half-typed operator modifier after a binary operator. *)
Definition tree_ign : Tree :=
  Node PromQL 0 8
    [Node Expr 0 8
       [Node BinaryExpr 0 8
          [Node Expr 0 2
             [Node VectorSelector 0 2
                [Node MetricIdentifier 0 2 [Node Identifier 0 2 []]]];
           Node (OtherNode 8) 3 4 [];
           Node Expr 5 8
             [Node VectorSelector 5 8
                [Node MetricIdentifier 5 8 [Node Identifier 5 8 []]]]]]].

Definition ctx_ign : AutocompleteContext :=
  {| state := editor "up / ign" tree_ign [0; 0; 2; 0; 0; 0]%nat;
     pos := 8;
     filter := prefixFilter |}.

(** [sum|]: an identifier that may start a metric, a function or a
    snippet. *)
Definition tree_sum : Tree :=
  Node PromQL 0 3
    [Node Expr 0 3
       [Node VectorSelector 0 3
          [Node MetricIdentifier 0 3 [Node Identifier 0 3 []]]]].

Definition ctx_sum : AutocompleteContext :=
  {| state := editor "sum" tree_sum [0; 0; 0; 0]%nat;
     pos := 3;
     filter := prefixFilter |}.

(** A client that knows one metric and its labels. *)
Definition client_up : PrometheusClient :=
  {| labelNames := fun _ => Resolved ["instance"; "job"];
     labelValues := fun l m =>
       if String.eqb l "__name__" then Resolved ["up"; "rate_limit_total"]
       else if String.eqb l "job" then Resolved ["node"; "prometheus"]
       else Resolved [] |}.

(** An endpoint that cannot be reached. *)
Definition endpoint_down : RemoteClient.Endpoint :=
  {| RemoteClient.getLabelNames := fun _ => RemoteClient.NetworkError;
     RemoteClient.getLabelValues := fun _ _ => RemoteClient.NetworkError |}.

(** The language server's answer of the end-to-end scenario. *)
Definition answer_foo : LSPClient.AutocompleteResponse :=
  {| LSPClient.label := "foo";
     LSPClient.textEdit :=
       Some {| LSPClient.range :=
                 {| LSPClient.range_start := LSPClient.mkPosition 0 3;
                    LSPClient.range_end := LSPClient.mkPosition 0 5 |};
               LSPClient.newText := "foobar" |} |}.

Definition server_foo (u : string) (b : LSPClient.Body)
    : Promise LSPClient.AxiosResponse :=
  Resolved (LSPClient.mkAxiosResponse (Some [answer_foo])).

Definition ctx_lsp (p : Z) : AutocompleteContext :=
  {| state := editor "foo" (Node PromQL 0 3 []) [];
     pos := p;
     filter := prefixFilter |}.

End Sample.

(** ** The demo application ([app.ts]) *)

Module App.

(** The argument of [promqlExtension.setComplete]: which remote completion
    source to use, each by its URL. *)
Record CompleteConfiguration : Type := mkCompleteConfiguration {
  complete_lsp : option string;
  complete_hybrid : option string
}.

(** The argument of [promqlExtension.setLinter]. *)
Record LintConfiguration : Type := mkLintConfiguration {
  lint_lsp : option string
}.

(** What the application does to the extension and to the editor views, in
    the order it does it.  A view is named by its creation rank. *)
Inductive Effect : Type :=
| SetComplete (conf : option CompleteConfiguration)
| SetLinter (conf : option LintConfiguration)
| Destroy (view : nat)
| Create (view : nat).

(** The values selected in the two drop-downs of the page. *)
Record Page : Type := mkPage {
  completion : string;
  linter : string
}.

(** The module-level [editor] variable, the number of views created so far,
    and the effects so far. *)
Record World : Type := mkWorld {
  editor : option nat;
  created : nat;
  effects : list Effect
}.

Definition emit (e : Effect) (w : World) : World :=
  {| editor := editor w; created := created w; effects := effects w ++ [e] |}.

Definition setCompletion (page : Page) (w : World) : World :=
  let completionValue := completion page in
  if String.eqb completionValue "offline" then emit (SetComplete None) w
  else if String.eqb completionValue "lsp" then
    emit (SetComplete
            (Some {| complete_lsp := Some "http://localhost:8080/lsp";
                     complete_hybrid := None |})) w
  else if String.eqb completionValue "prometheus" then
    emit (SetComplete
            (Some {| complete_lsp := None;
                     complete_hybrid := Some "http://localhost:9090" |})) w
  else emit (SetComplete None) w.

Definition setLinter (page : Page) (w : World) : World :=
  let completionValue := linter page in
  if String.eqb completionValue "offline" then emit (SetLinter None) w
  else if String.eqb completionValue "lsp" then
    emit (SetLinter (Some {| lint_lsp := Some "http://localhost:8080/lsp" |})) w
  else emit (SetLinter None) w.

Definition createEditor (w : World) : World :=
  let w1 :=
    match editor w with
    | Some previous => emit (Destroy previous) w
    | None => w
    end in
  {| editor := Some (created w1);
     created := S (created w1);
     effects := effects w1 ++ [Create (created w1)] |}.

Definition applyConfiguration (page : Page) (w : World) : World :=
  createEditor (setLinter page (setCompletion page w)).

(** Loading the module: [createEditor()] with no editor yet. *)
Definition load : World :=
  createEditor {| editor := None; created := 0; effects := [] |}.

(** One click on "apply" per page state, after loading. *)
Definition clicks (pages : list Page) : World :=
  fold_left (fun w page => applyConfiguration page w) pages load.

(** The views created and not destroyed since, oldest first. *)
Fixpoint alive (es : list Effect) (views : list nat) : list nat :=
  match es with
  | [] => views
  | Create v :: rest => alive rest (views ++ [v])
  | Destroy v :: rest => alive rest (remove Nat.eq_dec v views)
  | _ :: rest => alive rest views
  end.

(** The configurations handed to the extension, oldest first. *)
Fixpoint completeCalls (es : list Effect) : list (option CompleteConfiguration) :=
  match es with
  | [] => []
  | SetComplete c :: rest => c :: completeCalls rest
  | _ :: rest => completeCalls rest
  end.

Fixpoint linterCalls (es : list Effect) : list (option LintConfiguration) :=
  match es with
  | [] => []
  | SetLinter c :: rest => c :: linterCalls rest
  | _ :: rest => linterCalls rest
  end.

End App.

(** ** Further vocabulary and inputs *)

(** The resolved node is the grouping list or a label name in it. *)
Definition inGroupingLabels (t : Subtree) : Prop :=
  type_id t = GroupingLabels
  \/ (type_id t = LabelName
      /\ exists p, parent t = Some p /\ type_id p = GroupingLabel).

(** The resolved node is the matcher list or a label name in a matcher. *)
Definition inLabelMatchers (t : Subtree) : Prop :=
  type_id t = LabelMatchers
  \/ (type_id t = LabelName
      /\ exists p, parent t = Some p /\ type_id p = LabelMatcher).

(** The parent, when there is one, has none of the listed types. *)
Definition parentAvoids (t : Subtree) (tys : list NodeType) : Prop :=
  forall p, parent t = Some p -> ~ In (type_id p) tys.

(** The number of labels over all categories. *)
Definition labelCount (data : list AutoCompleteNode) : nat :=
  list_sum (map (fun n => List.length (labels n)) data).

(** One editor, the latest created, and nothing else alive. *)
Definition oneEditor (w : App.World) (n : nat) : Prop :=
  App.editor w = Some n
  /\ App.created w = S n
  /\ App.alive (App.effects w) [] = [n].

(** The label name of a matcher: the text of its first child when that
    child is a label name, the empty name otherwise. *)
Definition matcherLabelName (st : EditorState) (matcher : Subtree)
    (labelName : string) : Prop :=
  (exists fc,
     firstChild matcher = Some fc /\ type_id fc = LabelName
     /\ labelName = sliceDoc st (start fc) (end_ fc))
  \/ ((forall fc, firstChild matcher = Some fc -> type_id fc <> LabelName)
      /\ labelName = EmptyString).

(** The metric name that scopes a node: the text of the identifier reached
    by [walkBackward] to the enclosing vector selector and [walkThrough] to
    its metric identifier; the empty name when either walk finds nothing. *)
Definition scopingMetricName (st : EditorState) (t : Subtree)
    (metricName : string) : Prop :=
  (exists selector metric,
     walkBackward t VectorSelector = Some selector
     /\ walkThrough selector [MetricIdentifier; Identifier] = Some metric
     /\ metricName = sliceDoc st (start metric) (end_ metric))
  \/ ((walkBackward t VectorSelector = None
       \/ exists selector,
            walkBackward t VectorSelector = Some selector
            /\ walkThrough selector [MetricIdentifier; Identifier] = None)
      /\ metricName = EmptyString).

(** A log in which a view is only ever created when none is alive, read
    from a moment at which [views] are alive. *)
Fixpoint calm (es : list App.Effect) (views : list nat) : Prop :=
  match es with
  | [] => True
  | App.Create v :: rest => views = [] /\ calm rest (views ++ [v])
  | App.Destroy v :: rest => calm rest (remove Nat.eq_dec v views)
  | _ :: rest => calm rest views
  end.

Module MoreSamples.

(** [foo{bar==|}]: the error node after the label holds the first [=]. *)
Definition tree_eqeq : Tree :=
  Node Sample.PromQL 0 10
    [Node Sample.Expr 0 10
       [Node VectorSelector 0 10
          [Node MetricIdentifier 0 3 [Node Identifier 0 3 []];
           Node LabelMatchers 3 10
             [Node LabelMatcher 4 9
                [Node LabelName 4 7 [];
                 Node ErrorNode 7 9 [Node MatchOp 7 8 []]]]]]].

Definition ctx_eqeq : AutocompleteContext :=
  {| state := Sample.editor "foo{bar==}" tree_eqeq [0; 0; 1; 0]%nat;
     pos := 9;
     filter := Sample.prefixFilter |}.

(** [foo{bar!|}]: a lone [!] after the label. *)
Definition tree_bang : Tree :=
  Node Sample.PromQL 0 9
    [Node Sample.Expr 0 9
       [Node VectorSelector 0 9
          [Node MetricIdentifier 0 3 [Node Identifier 0 3 []];
           Node LabelMatchers 3 9
             [Node LabelMatcher 4 8
                [Node LabelName 4 7 []; Node ErrorNode 7 8 []]]]]].

Definition ctx_bang : AutocompleteContext :=
  {| state := Sample.editor "foo{bar!}" tree_bang [0; 0; 1; 0]%nat;
     pos := 8;
     filter := Sample.prefixFilter |}.

(** [foo{%|}]: an error token directly in the matcher list. *)
Definition tree_stray : Tree :=
  Node Sample.PromQL 0 6
    [Node Sample.Expr 0 6
       [Node VectorSelector 0 6
          [Node MetricIdentifier 0 3 [Node Identifier 0 3 []];
           Node LabelMatchers 3 6 [Node ErrorNode 4 5 []]]]].

Definition ctx_stray : AutocompleteContext :=
  {| state := Sample.editor "foo{%}" tree_stray [0; 0; 1; 0]%nat;
     pos := 5;
     filter := Sample.prefixFilter |}.

(** [sum(up) w|]: a half-typed keyword after a complete expression. *)
Definition tree_keyword : Tree :=
  Node Sample.PromQL 0 9
    [Node Sample.Expr 0 7 [Node (OtherNode 3) 0 7 []];
     Node ErrorNode 8 9 []].

Definition ctx_keyword : AutocompleteContext :=
  {| state := Sample.editor "sum(up) w" tree_keyword [1]%nat;
     pos := 9;
     filter := Sample.prefixFilter |}.

(** [up{job=|"pro"}]: the cursor right after the match operator. *)
Definition ctx_op : AutocompleteContext :=
  {| state := Sample.editor Sample.doc_value Sample.tree_value [0; 0; 1; 0; 1]%nat;
     pos := 7;
     filter := Sample.prefixFilter |}.

(** [up{jo|}]: a half-typed label name in a matcher. *)
Definition tree_label : Tree :=
  Node Sample.PromQL 0 6
    [Node Sample.Expr 0 6
       [Node VectorSelector 0 6
          [Node MetricIdentifier 0 2 [Node Identifier 0 2 []];
           Node LabelMatchers 2 6
             [Node LabelMatcher 3 5 [Node LabelName 3 5 []]]]]].

Definition ctx_label : AutocompleteContext :=
  {| state := Sample.editor "up{jo}" tree_label [0; 0; 1; 0; 0]%nat;
     pos := 5;
     filter := Sample.prefixFilter |}.

(** A client whose every lookup is rejected. *)
Definition client_broken : PrometheusClient :=
  {| labelNames := fun _ => Rejected "Network Error";
     labelValues := fun _ _ => Rejected "Network Error" |}.

(** A client that answers label names by scope. *)
Definition client_scoped : PrometheusClient :=
  {| labelNames := fun scope =>
       match scope with
       | Some m => if String.eqb m "up" then Resolved ["instance"; "job"]
                   else Resolved []
       | None => Resolved ["instance"; "job"; "le"]
       end;
     labelValues := fun _ _ => Resolved [] |}.

(** A server that cannot be reached. *)
Definition server_down (u : string) (b : LSPClient.Body)
    : Promise LSPClient.AxiosResponse :=
  Rejected "Network Error".

Definition edit (c : Z) (t : string) : LSPClient.TextEdit :=
  {| LSPClient.range :=
       {| LSPClient.range_start := LSPClient.mkPosition 0 c;
          LSPClient.range_end := LSPClient.mkPosition 0 3 |};
     LSPClient.newText := t |}.

(** Three answers: an edit, another edit, a bare label. *)
Definition answers_mixed : list LSPClient.AutocompleteResponse :=
  [ LSPClient.mkAutocompleteResponse "a" (Some (edit 1 "alpha"));
    LSPClient.mkAutocompleteResponse "b" (Some (edit 2 "beta"));
    LSPClient.mkAutocompleteResponse "gamma" None ].

Definition server_mixed (u : string) (b : LSPClient.Body)
    : Promise LSPClient.AxiosResponse :=
  Resolved (LSPClient.mkAxiosResponse (Some answers_mixed)).

(** Two answers without an edit. *)
Definition answers_plain : list LSPClient.AutocompleteResponse :=
  [ LSPClient.mkAutocompleteResponse "rate" None;
    LSPClient.mkAutocompleteResponse "round" None ].

Definition server_plain (u : string) (b : LSPClient.Body)
    : Promise LSPClient.AxiosResponse :=
  Resolved (LSPClient.mkAxiosResponse (Some answers_plain)).

(** [{job="x|"}]: the value of a matcher in a selector without a metric
    name. *)
Definition doc_nometric : string := "{job=" ++ quoted "x" ++ "}".

Definition tree_nometric : Tree :=
  Node Sample.PromQL 0 9
    [Node Sample.Expr 0 9
       [Node VectorSelector 0 9
          [Node LabelMatchers 0 9
             [Node LabelMatcher 1 8
                [Node LabelName 1 4 [];
                 Node MatchOp 4 5 [];
                 Node StringLiteral 5 8 []]]]]].

Definition ctx_nometric : AutocompleteContext :=
  {| state := Sample.editor doc_nometric tree_nometric [0; 0; 0; 0; 2]%nat;
     pos := 7;
     filter := Sample.prefixFilter |}.

End MoreSamples.

Unset Implicit Arguments.

(** * Properties *)

(** ** Proof steps *)

(** Comparisons of two known node types are decided by computation. *)
Ltac decide_types :=
  repeat match goal with
    | |- context [same_type ?a ?b] =>
        let v := eval vm_compute in (same_type a b) in
        match v with
        | true => change (same_type a b) with true
        | false => change (same_type a b) with false
        end
    end;
  rewrite ?andb_false_r, ?andb_true_r, ?orb_false_r, ?orb_true_r;
  cbn [andb orb negb].

(** Opens [promQL] at the node it classifies. *)
Ltac open_promQL ctx :=
  unfold HybridComplete.promQL; cbv zeta;
  change (resolve (state ctx) (pos ctx) (-1)) with (resolved ctx).

(** From a settled invocation to the assembled result behind it. *)
Ltac settle Hr :=
  match type of Hr with
  | Sync _ = Sync _ => injection Hr as Hr; subst
  | Async (then_ ?p _) = Async (Resolved _) =>
      injection Hr as Hr; destruct p; simpl in Hr;
      [injection Hr as Hr; subst | discriminate Hr]
  | _ => discriminate Hr
  end.

(** ** Node types and navigation *)

Lemma same_type_true (a b : NodeType) : same_type a b = true <-> a = b.
Proof.
  unfold same_type. destruct (NodeType_eq_dec a b); split; congruence.
Qed.

Lemma same_type_refl (a : NodeType) : same_type a a = true.
Proof. now apply same_type_true. Qed.

Lemma has_type_true (x : option Subtree) (T : NodeType) :
  has_type x T = true <-> exists s, x = Some s /\ type_id s = T.
Proof.
  destruct x as [s|]; simpl.
  - rewrite same_type_true. split.
    + intros H. now exists s.
    + intros (s' & E & H). now inversion E; subst.
  - split; [discriminate | intros (s & E & _); discriminate].
Qed.

Lemma has_type_parent (t p : Subtree) (H : parent t = Some p) (T : NodeType) :
  has_type (parent t) T = same_type (type_id p) T.
Proof. rewrite H. reflexivity. Qed.

(** ** The result assembler *)

Section Assembler.

Variable context : AutocompleteContext.
Variable text : string.

Lemma pushFiltered_fold (cs : list Completion) :
  forall acc,
    fold_left (HybridComplete.pushFiltered context text) cs acc
    = (acc ++ kept context text cs)%list.
Proof.
  induction cs as [|c cs IH]; intros acc; simpl.
  - now rewrite app_nil_r.
  - rewrite IH. unfold HybridComplete.pushFiltered.
    destruct (filter context c text); simpl.
    + now rewrite <- app_assoc.
    + reflexivity.
Qed.

Lemma kept_app (xs ys : list Completion) :
  kept context text (xs ++ ys)
  = (kept context text xs ++ kept context text ys)%list.
Proof. unfold kept. now rewrite flat_map_app. Qed.

Lemma labels_fold (ty : string) (ls : list string) :
  forall acc,
    fold_left
      (fun opts l =>
         HybridComplete.pushFiltered context text opts
           (HybridComplete.termCompletion ty l))
      ls acc
    = (acc ++ kept context text (map (HybridComplete.termCompletion ty) ls))%list.
Proof.
  induction ls as [|l ls IH]; intros acc; simpl.
  - now rewrite app_nil_r.
  - rewrite IH. unfold HybridComplete.pushFiltered.
    destruct (filter context _ text); simpl.
    + now rewrite <- app_assoc.
    + reflexivity.
Qed.

Lemma data_fold (data : list AutoCompleteNode) :
  forall acc,
    fold_left
      (fun opts completionList =>
         fold_left
           (fun opts' l =>
              HybridComplete.pushFiltered context text opts'
                (HybridComplete.termCompletion (type completionList) l))
           (labels completionList) opts)
      data acc
    = (acc ++ kept context text (candidates data))%list.
Proof.
  induction data as [|n data IH]; intros acc; simpl.
  - now rewrite app_nil_r.
  - rewrite IH, labels_fold, kept_app. now rewrite <- app_assoc.
Qed.

End Assembler.

(** The options of an assembled result are the kept candidates of the
    categories, in order, followed by the kept snippets when asked for. *)
Lemma arrayToCompletionResult_options data a b context st includeSnippet :
  options (HybridComplete.arrayToCompletionResult data a b context st includeSnippet)
  = kept context (sliceDoc st a b)
      (candidates data ++ if includeSnippet then parsedSnippets else []).
Proof.
  unfold HybridComplete.arrayToCompletionResult; cbn [options].
  rewrite data_fold. cbn [app].
  destruct includeSnippet.
  - now rewrite pushFiltered_fold, kept_app.
  - now rewrite app_nil_r.
Qed.

Lemma arrayToCompletionResult_from data a b context st includeSnippet :
  from (HybridComplete.arrayToCompletionResult data a b context st includeSnippet) = a.
Proof. reflexivity. Qed.

Lemma arrayToCompletionResult_to data a b context st includeSnippet :
  to (HybridComplete.arrayToCompletionResult data a b context st includeSnippet) = b.
Proof. reflexivity. Qed.

Lemma In_kept context text cs o :
  In o (kept context text cs) <->
  exists c, In c cs /\ filter context c text = Some o.
Proof.
  unfold kept. rewrite in_flat_map. split.
  - intros (c & Hc & Ho). exists c. split; [assumption|].
    destruct (filter context c text) as [r|]; simpl in Ho.
    + destruct Ho as [->|[]]. reflexivity.
    + contradiction.
  - intros (c & Hc & E). exists c. split; [assumption|].
    rewrite E. now left.
Qed.

(** ** The classification of [promQL] *)

Section Classification.

Variable terms : PromQLTerms.
Variable ctx : AutocompleteContext.

Let t := resolved ctx.

(** Without a client the three metadata branches answer [null]. *)
Lemma promQL_listNode_offline :
  atListNode t -> HybridComplete.promQL terms None ctx = NoCompletion.
Proof.
  intros [H|H]; open_promQL ctx; fold t; rewrite H; decide_types.
  - reflexivity.
  - reflexivity.
Qed.

Lemma promQL_labelToken_offline :
  atLabelToken t -> HybridComplete.promQL terms None ctx = NoCompletion.
Proof.
  intros (Hty & p & Hp & [H|H]); open_promQL ctx; fold t;
    rewrite Hty, !(has_type_parent t p Hp), H; decide_types; reflexivity.
Qed.

Lemma promQL_matcherString_offline :
  atMatcherString t -> HybridComplete.promQL terms None ctx = NoCompletion.
Proof.
  intros (Hty & p & Hp & H); open_promQL ctx; fold t.
  rewrite Hty, !(has_type_parent t p Hp), H; decide_types.
  rewrite Hp. reflexivity.
Qed.

(** With a client, a list node or a label token asks for the label names
    and anchors the replacement at the node. *)
Lemma promQL_listNode_online (client : PrometheusClient) :
  atListNode t ->
  exists scope,
    HybridComplete.promQL terms (Some client) ctx
    = Async (then_ (labelNames client scope)
               (fun names =>
                  HybridComplete.arrayToCompletionResult
                    [mkAutoCompleteNode names "constant"]
                    (start t + 1) (pos ctx) ctx (state ctx) false)).
Proof.
  intros [H|H]; open_promQL ctx; fold t; rewrite H; decide_types.
  - exists None. unfold HybridComplete.labelNames. rewrite H. reflexivity.
  - eexists. unfold HybridComplete.autocompleteLabelNamesByMetric,
      HybridComplete.labelNames. rewrite H. reflexivity.
Qed.

Lemma promQL_labelToken_online (client : PrometheusClient) :
  atLabelToken t ->
  exists scope,
    HybridComplete.promQL terms (Some client) ctx
    = Async (then_ (labelNames client scope)
               (fun names =>
                  HybridComplete.arrayToCompletionResult
                    [mkAutoCompleteNode names "constant"]
                    (start t) (pos ctx) ctx (state ctx) false)).
Proof.
  intros (Hty & p & Hp & [H|H]); open_promQL ctx; fold t;
    rewrite Hty, !(has_type_parent t p Hp), H; decide_types.
  - exists None. unfold HybridComplete.labelNames. rewrite Hty. reflexivity.
  - eexists. unfold HybridComplete.autocompleteLabelNamesByMetric,
      HybridComplete.labelNames. rewrite Hty. reflexivity.
Qed.

End Classification.

Lemma listNode_not_labelToken (t : Subtree) : atListNode t -> ~ atLabelToken t.
Proof. intros [H|H] (Hty & _); congruence. Qed.

(** ** Metadata branches without a client *)

(** C10.  When no Prometheus client is configured, an invocation whose
    resolved node falls into the grouping-labels branch, the
    label-matcher-list branch (the list node itself or a bare label name in
    it) or the label-matcher string-literal branch returns [null], not a
    completion result with an empty candidate list. *)
Theorem offline_metadata_branches_return_null
    (terms : PromQLTerms) (ctx : AutocompleteContext) :
  atListNode (resolved ctx) \/ atLabelToken (resolved ctx)
    \/ atMatcherString (resolved ctx) ->
  HybridComplete.promQL terms None ctx = NoCompletion.
Proof.
  intros [H|[H|H]].
  - now apply promQL_listNode_offline.
  - now apply promQL_labelToken_offline.
  - now apply promQL_matcherString_offline.
Qed.

Lemma offline_metadata_branches_return_null_witness :
  HybridComplete.promQL Sample.terms None Sample.ctx_by = NoCompletion
  /\ HybridComplete.promQL Sample.terms None Sample.ctx_value = NoCompletion.
Proof.
  split.
  - apply (offline_metadata_branches_return_null Sample.terms Sample.ctx_by).
    left. left. reflexivity.
  - apply (offline_metadata_branches_return_null Sample.terms Sample.ctx_value).
    right. right. split; [reflexivity|].
    eexists. split; reflexivity.
Defined.

(** ** Replacement start of the label-name branches *)

(** C4.  With a configured metadata provider that answers the label-name
    lookup, an invocation classified into the grouping-labels branch or the
    label-matcher-list branch returns a result whose replacement start is
    the list node's start plus 1 when the resolved node is the list node
    itself, and the token's own start when the resolved node is a bare label
    name inside the list. *)
Theorem labelNames_replacement_start
    (terms : PromQLTerms) (client : PrometheusClient) (ctx : AutocompleteContext) :
  (forall scope, exists names, labelNames client scope = Resolved names) ->
  atListNode (resolved ctx) \/ atLabelToken (resolved ctx) ->
  exists r,
    HybridComplete.promQL terms (Some client) ctx = Async (Resolved r)
    /\ to r = pos ctx
    /\ (atListNode (resolved ctx) -> from r = start (resolved ctx) + 1)
    /\ (atLabelToken (resolved ctx) -> from r = start (resolved ctx)).
Proof.
  intros Hclient [H|H].
  - destruct (promQL_listNode_online terms ctx client H) as (scope & E).
    destruct (Hclient scope) as (names & En).
    rewrite En in E. simpl in E.
    eexists. split; [exact E|].
    split; [reflexivity|]. split.
    + reflexivity.
    + intros H'. now apply listNode_not_labelToken in H.
  - destruct (promQL_labelToken_online terms ctx client H) as (scope & E).
    destruct (Hclient scope) as (names & En).
    rewrite En in E. simpl in E.
    eexists. split; [exact E|].
    split; [reflexivity|]. split.
    + intros H'. now apply listNode_not_labelToken in H'.
    + reflexivity.
Qed.

Lemma labelNames_replacement_start_witness :
  exists r,
    HybridComplete.promQL Sample.terms (Some Sample.client_up) Sample.ctx_by
    = Async (Resolved r)
    /\ to r = 8
    /\ (atListNode (resolved Sample.ctx_by) -> from r = 7 + 1)
    /\ (atLabelToken (resolved Sample.ctx_by) -> from r = 7).
Proof.
  apply (labelNames_replacement_start Sample.terms Sample.client_up Sample.ctx_by).
  - intros scope. eexists. reflexivity.
  - left. left. reflexivity.
Defined.

(** ** The label-value branch *)

Lemma getMetricNameInVectorSelector_found (t selector metric : Subtree)
    (st : EditorState) :
  walkBackward t VectorSelector = Some selector ->
  walkThrough selector [MetricIdentifier; Identifier] = Some metric ->
  HybridComplete.getMetricNameInVectorSelector t st
  = sliceDoc st (start metric) (end_ metric).
Proof.
  intros H1 H2. unfold HybridComplete.getMetricNameInVectorSelector.
  now rewrite H1, H2.
Qed.

(** Outside a vector selector, or in one without a metric identifier, the
    scope is the empty name. *)
Lemma getMetricNameInVectorSelector_missing (t : Subtree) (st : EditorState) :
  walkBackward t VectorSelector = None \/
  (exists selector, walkBackward t VectorSelector = Some selector
                    /\ walkThrough selector [MetricIdentifier; Identifier] = None) ->
  HybridComplete.getMetricNameInVectorSelector t st = EmptyString.
Proof.
  unfold HybridComplete.getMetricNameInVectorSelector.
  intros [H|(selector & H1 & H2)].
  - now rewrite H.
  - now rewrite H1, H2.
Qed.

Lemma matcherLabelName_computed (st : EditorState) (matcher : Subtree) :
  matcherLabelName st matcher
    (match firstChild matcher with
     | Some fc =>
         if same_type (type_id fc) LabelName
         then sliceDoc st (start fc) (end_ fc)
         else EmptyString
     | None => EmptyString
     end).
Proof.
  unfold matcherLabelName.
  destruct (firstChild matcher) as [fc|].
  - destruct (same_type (type_id fc) LabelName) eqn:E.
    + left. exists fc. apply same_type_true in E. auto.
    + right. split; [|reflexivity].
      intros fc' [= <-] H. apply same_type_true in H. congruence.
  - right. split; [|reflexivity]. intros fc H. discriminate H.
Qed.

Lemma scopingMetricName_computed (st : EditorState) (t : Subtree) :
  scopingMetricName st t (HybridComplete.getMetricNameInVectorSelector t st).
Proof.
  unfold scopingMetricName, HybridComplete.getMetricNameInVectorSelector.
  destruct (walkBackward t VectorSelector) as [selector|].
  - destruct (walkThrough selector [MetricIdentifier; Identifier]) as [metric|] eqn:E.
    + left. exists selector, metric. auto.
    + right. split; [|reflexivity]. right. exists selector. auto.
  - right. split; [|reflexivity]. now left.
Qed.

(** C5.  With a configured metadata provider, for every cursor position
    whose resolved node is the string literal of a label matcher, the
    resolver takes the label name from the matcher's first child (the empty
    name when that child is no label name), the metric name from the
    identifier reached by [walkBackward] to the vector selector and
    [walkThrough] to its metric identifier (the empty name when there is
    none), and asks the provider for the values of that (label, metric)
    pair.  Its promise settles as that lookup does: rejected with the
    lookup, or fulfilled with the values the host filter keeps (kind
    "text") over the span that starts one past the string literal's start
    and ends at the cursor. *)
Theorem labelValue_completion
    (terms : PromQLTerms) (client : PrometheusClient) (ctx : AutocompleteContext) :
  atMatcherString (resolved ctx) ->
  exists matcher labelName metricName p,
    parent (resolved ctx) = Some matcher
    /\ matcherLabelName (state ctx) matcher labelName
    /\ scopingMetricName (state ctx) (resolved ctx) metricName
    /\ HybridComplete.promQL terms (Some client) ctx = Async p
    /\ (forall reason,
          labelValues client labelName (Some metricName) = Rejected reason ->
          p = Rejected reason)
    /\ (forall values,
          labelValues client labelName (Some metricName) = Resolved values ->
          exists r,
            p = Resolved r
            /\ from r = start (resolved ctx) + 1
            /\ to r = pos ctx
            /\ options r
               = kept ctx
                   (sliceDoc (state ctx) (start (resolved ctx) + 1) (pos ctx))
                   (map (HybridComplete.termCompletion "text") values)).
Proof.
  intros (Hty & matcher & Hp & Hm).
  exists matcher. do 3 eexists.
  split; [exact Hp|].
  split; [apply matcherLabelName_computed|].
  split; [apply scopingMetricName_computed|].
  split.
  { open_promQL ctx.
    rewrite Hty, !(has_type_parent _ _ Hp), Hm; decide_types.
    rewrite Hp. unfold HybridComplete.autocompleteLabelValue. reflexivity. }
  split.
  - intros reason E. now rewrite E.
  - intros values E. rewrite E.
    eexists. split; [reflexivity|].
    split; [reflexivity|]. split; [reflexivity|].
    rewrite arrayToCompletionResult_options. simpl. now rewrite !app_nil_r.
Qed.

Lemma labelValue_completion_witness :
  (exists matcher labelName metricName p,
     parent (resolved Sample.ctx_value) = Some matcher
     /\ matcherLabelName (state Sample.ctx_value) matcher labelName
     /\ scopingMetricName (state Sample.ctx_value) (resolved Sample.ctx_value)
          metricName
     /\ HybridComplete.promQL Sample.terms (Some Sample.client_up) Sample.ctx_value
        = Async p
     /\ (forall reason,
           labelValues Sample.client_up labelName (Some metricName) = Rejected reason ->
           p = Rejected reason)
     /\ (forall values,
           labelValues Sample.client_up labelName (Some metricName) = Resolved values ->
           exists r,
             p = Resolved r
             /\ from r = start (resolved Sample.ctx_value) + 1
             /\ to r = pos Sample.ctx_value
             /\ options r
                = kept Sample.ctx_value
                    (sliceDoc (state Sample.ctx_value)
                       (start (resolved Sample.ctx_value) + 1)
                       (pos Sample.ctx_value))
                    (map (HybridComplete.termCompletion "text") values)))
  /\ atMatcherString (resolved MoreSamples.ctx_nometric).
Proof.
  split.
  - apply (labelValue_completion Sample.terms Sample.client_up Sample.ctx_value).
    split; [reflexivity|]. eexists. split; reflexivity.
  - split; [reflexivity|]. eexists. split; reflexivity.
Defined.

(** The two samples of the branch, evaluated: with the metric [up], and in
    a selector without a metric name, where the scope is the empty name. *)
Example labelValue_with_metric :
  scopingMetricName (state Sample.ctx_value) (resolved Sample.ctx_value) "up"
  /\ exists r,
       HybridComplete.promQL Sample.terms (Some Sample.client_up) Sample.ctx_value
       = Async (Resolved r)
       /\ from r = 8 /\ to r = 11 /\ map label (options r) = ["prometheus"].
Proof.
  split.
  - left. do 2 eexists. repeat split; reflexivity.
  - eexists. repeat split; reflexivity.
Qed.

Example labelValue_without_metric :
  scopingMetricName (state MoreSamples.ctx_nometric)
    (resolved MoreSamples.ctx_nometric) EmptyString
  /\ exists r,
       HybridComplete.promQL Sample.terms (Some Sample.client_up)
         MoreSamples.ctx_nometric
       = Async (Resolved r)
       /\ from r = 6 /\ to r = 7 /\ map label (options r) = [].
Proof.
  split.
  - right. split; [|reflexivity]. right. eexists. split; reflexivity.
  - eexists. repeat split; reflexivity.
Qed.

(** ** The metric-name branch *)

Lemma metric_branch_condition (t : Subtree) :
  has_type (parent t) MetricIdentifier && same_type (type_id t) Identifier = true
  <-> atMetricIdentifier t.
Proof.
  rewrite andb_true_iff, has_type_true, same_type_true.
  unfold atMetricIdentifier. tauto.
Qed.

Lemma fourth_ancestor_condition (t : Subtree) :
  has_type (parent_of (parent_of (parent_of (parent t)))) BinaryExpr = true
  <-> fourthAncestorIsBinaryExpr t.
Proof.
  rewrite has_type_true. unfold fourthAncestorIsBinaryExpr. split.
  - intros (p4 & E & Hty).
    destruct (parent t) as [p1|] eqn:E1; [|discriminate].
    simpl in E. destruct (parent p1) as [p2|] eqn:E2; [|discriminate].
    simpl in E. destruct (parent p2) as [p3|] eqn:E3; [|discriminate].
    simpl in E. exists p1, p2, p3, p4. auto.
  - intros (p1 & p2 & p3 & p4 & E1 & E2 & E3 & E4 & Hty).
    exists p4. rewrite E1; simpl. rewrite E2; simpl. rewrite E3; simpl. auto.
Qed.

Lemma promQL_metric_branch_offline (terms : PromQLTerms) (ctx : AutocompleteContext) :
  atMetricIdentifier (resolved ctx) ->
  HybridComplete.promQL terms None ctx
  = Sync (HybridComplete.arrayToCompletionResult
            (HybridComplete.nonMetricCompletions terms (resolved ctx))
            (start (resolved ctx)) (pos ctx) ctx (state ctx) true).
Proof.
  intros H. apply metric_branch_condition in H.
  open_promQL ctx. now rewrite H.
Qed.

Lemma promQL_metric_branch_online (terms : PromQLTerms) (client : PrometheusClient)
    (ctx : AutocompleteContext) :
  atMetricIdentifier (resolved ctx) ->
  HybridComplete.promQL terms (Some client) ctx
  = Async (then_ (labelValues client "__name__" None)
             (fun metricNames =>
                HybridComplete.arrayToCompletionResult
                  (mkAutoCompleteNode metricNames "constant"
                     :: HybridComplete.nonMetricCompletions terms (resolved ctx))
                  (start (resolved ctx)) (pos ctx) ctx (state ctx) true)).
Proof.
  intros H. apply metric_branch_condition in H.
  open_promQL ctx. now rewrite H.
Qed.

(** C7.  In the metric-name-identifier branch the categories handed to the
    assembler are the function names, the aggregation operators and the
    binary operators (after the metric names when a client is configured),
    and the binary-operator modifiers are added to them if and only if the
    fourth ancestor of the resolved identifier exists and is a
    binary-expression node. *)
Theorem binOpModifier_iff_fourth_ancestor
    (terms : PromQLTerms) (client : option PrometheusClient)
    (ctx : AutocompleteContext) :
  atMetricIdentifier (resolved ctx) ->
  exists data,
    match client with
    | None =>
        HybridComplete.promQL terms None ctx
        = Sync (HybridComplete.arrayToCompletionResult data
                  (start (resolved ctx)) (pos ctx) ctx (state ctx) true)
    | Some c =>
        HybridComplete.promQL terms (Some c) ctx
        = Async (then_ (labelValues c "__name__" None)
                   (fun metricNames =>
                      HybridComplete.arrayToCompletionResult
                        (mkAutoCompleteNode metricNames "constant" :: data)
                        (start (resolved ctx)) (pos ctx) ctx (state ctx) true))
    end
    /\ ((fourthAncestorIsBinaryExpr (resolved ctx)
         /\ data = [HybridComplete.functionIdentifier terms;
                    HybridComplete.aggregateOp terms;
                    HybridComplete.binOp terms;
                    HybridComplete.binOpModifier terms])
        \/ (~ fourthAncestorIsBinaryExpr (resolved ctx)
            /\ data = [HybridComplete.functionIdentifier terms;
                       HybridComplete.aggregateOp terms;
                       HybridComplete.binOp terms])).
Proof.
  intros H.
  exists (HybridComplete.nonMetricCompletions terms (resolved ctx)). split.
  - destruct client as [c|].
    + now apply promQL_metric_branch_online.
    + now apply promQL_metric_branch_offline.
  - unfold HybridComplete.nonMetricCompletions.
    destruct (has_type _ BinaryExpr) eqn:E.
    + left. split; [now apply fourth_ancestor_condition | reflexivity].
    + right. split; [|reflexivity].
      intros F. apply fourth_ancestor_condition in F. congruence.
Qed.

Lemma binOpModifier_iff_fourth_ancestor_witness :
  exists data,
    HybridComplete.promQL Sample.terms None Sample.ctx_ign
    = Sync (HybridComplete.arrayToCompletionResult data 5 8
              Sample.ctx_ign (state Sample.ctx_ign) true)
    /\ ((fourthAncestorIsBinaryExpr (resolved Sample.ctx_ign)
         /\ data = [HybridComplete.functionIdentifier Sample.terms;
                    HybridComplete.aggregateOp Sample.terms;
                    HybridComplete.binOp Sample.terms;
                    HybridComplete.binOpModifier Sample.terms])
        \/ (~ fourthAncestorIsBinaryExpr (resolved Sample.ctx_ign)
            /\ data = [HybridComplete.functionIdentifier Sample.terms;
                       HybridComplete.aggregateOp Sample.terms;
                       HybridComplete.binOp Sample.terms])).
Proof.
  apply (binOpModifier_iff_fourth_ancestor Sample.terms None Sample.ctx_ign).
  split; [reflexivity|]. eexists. split; reflexivity.
Defined.

Example promQL_ign :
  exists r,
    HybridComplete.promQL Sample.terms None Sample.ctx_ign = Sync r
    /\ map label (options r) = ["ignoring"].
Proof. eexists. split; reflexivity. Qed.

Example promQL_ra :
  exists r,
    HybridComplete.promQL Sample.terms None Sample.ctx_ra = Sync r
    /\ map label (options r) = ["rate"].
Proof. eexists. split; reflexivity. Qed.

Lemma nonMetricCompletions_candidates (terms : PromQLTerms) (t : Subtree) :
  exists extra,
    candidates (HybridComplete.nonMetricCompletions terms t)
    = (map (HybridComplete.termCompletion "function") (functionIdentifierTerms terms)
       ++ map (HybridComplete.termCompletion "keyword") (aggregateOpTerms terms)
       ++ map (HybridComplete.termCompletion EmptyString) (binOpTerms terms)
       ++ extra)%list
    /\ (extra = []
        \/ extra = map (HybridComplete.termCompletion "keyword")
                     (binOpModifierTerms terms)).
Proof.
  unfold HybridComplete.nonMetricCompletions.
  destruct (has_type _ BinaryExpr); eexists; split.
  - unfold candidates; simpl. rewrite app_nil_r. reflexivity.
  - now right.
  - unfold candidates; simpl. reflexivity.
  - now left.
Qed.

(** With the typed text "ra" the prefix filter drops the function name
    "abs": the returned candidates do not include every function-name
    term. *)
Lemma offline_metric_branch_counterexample :
  atMetricIdentifier (resolved Sample.ctx_ra)
  /\ In "abs" (functionIdentifierTerms Sample.terms)
  /\ exists r,
       HybridComplete.promQL Sample.terms None Sample.ctx_ra = Sync r
       /\ ~ (exists o, In o (options r) /\ original o = "abs").
Proof.
  split.
  { split; [reflexivity|]. eexists. split; reflexivity. }
  split.
  { simpl. now left. }
  eexists. split; [reflexivity|].
  intros (o & Hin & Ho). simpl in Hin.
  destruct Hin as [<-|[]]. discriminate Ho.
Qed.

(** C6 (as amended).  In the metric-name-identifier branch without a
    metadata provider the invocation returns at once; the result holds every
    function-name, aggregation-operator and binary-operator term that the
    host filter keeps against the typed text, and every returned candidate
    is the filter's image of a static grammar term or of a snippet, so none
    is a metric name. *)
Theorem offline_metric_branch_candidates
    (terms : PromQLTerms) (ctx : AutocompleteContext) :
  atMetricIdentifier (resolved ctx) ->
  exists r,
    HybridComplete.promQL terms None ctx = Sync r
    /\ (forall c o,
          (exists l,
             (In l (functionIdentifierTerms terms)
              /\ c = HybridComplete.termCompletion "function" l)
             \/ (In l (aggregateOpTerms terms)
                 /\ c = HybridComplete.termCompletion "keyword" l)
             \/ (In l (binOpTerms terms)
                 /\ c = HybridComplete.termCompletion EmptyString l)) ->
          filter ctx c (sliceDoc (state ctx) (start (resolved ctx)) (pos ctx))
          = Some o ->
          In o (options r))
    /\ (forall o,
          In o (options r) ->
          exists c,
            filter ctx c (sliceDoc (state ctx) (start (resolved ctx)) (pos ctx))
            = Some o
            /\ (staticTerm terms c \/ In c parsedSnippets)).
Proof.
  intros H. rewrite (promQL_metric_branch_offline terms ctx H).
  eexists. split; [reflexivity|].
  rewrite arrayToCompletionResult_options.
  destruct (nonMetricCompletions_candidates terms (resolved ctx))
    as (extra & -> & Hextra).
  split.
  - intros c o (l & Hl) Hf. apply In_kept. exists c. split; [|exact Hf].
    rewrite !in_app_iff.
    destruct Hl as [[Hl ->]|[[Hl ->]|[Hl ->]]].
    + left. left. now apply in_map.
    + left. right. left. now apply in_map.
    + left. right. right. left. now apply in_map.
  - intros o Ho. apply In_kept in Ho. destruct Ho as (c & Hc & Hf).
    exists c. split; [exact Hf|].
    rewrite !in_app_iff in Hc.
    destruct Hc as [[Hc|[Hc|[Hc|Hc]]]|Hc].
    + apply in_map_iff in Hc. destruct Hc as (l & <- & Hl).
      left. exists l. auto.
    + apply in_map_iff in Hc. destruct Hc as (l & <- & Hl).
      left. exists l. auto.
    + apply in_map_iff in Hc. destruct Hc as (l & <- & Hl).
      left. exists l. auto.
    + destruct Hextra as [->| ->]; [contradiction|].
      apply in_map_iff in Hc. destruct Hc as (l & <- & Hl).
      left. exists l. auto 6.
    + now right.
Qed.

Lemma offline_metric_branch_candidates_witness :
  exists r,
    HybridComplete.promQL Sample.terms None Sample.ctx_ra = Sync r
    /\ In (HybridComplete.termCompletion "function" "rate") (options r).
Proof.
  destruct (offline_metric_branch_candidates Sample.terms Sample.ctx_ra)
    as (r & E & Hall & _).
  - split; [reflexivity|]. eexists. split; reflexivity.
  - exists r. split; [exact E|].
    apply (Hall (HybridComplete.termCompletion "function" "rate")).
    + exists "rate". left. split; [|reflexivity]. simpl. tauto.
    + reflexivity.
Defined.

(** ** The shape of every returned result *)

Lemma matcherString_condition (t : Subtree) :
  has_type (parent t) LabelMatcher && same_type (type_id t) StringLiteral = true
  <-> atMatcherString t.
Proof.
  rewrite andb_true_iff, has_type_true, same_type_true.
  unfold atMatcherString. tauto.
Qed.

Lemma listNode_condition (t : Subtree) :
  same_type (type_id t) GroupingLabels || same_type (type_id t) LabelMatchers = true
  <-> atListNode t.
Proof.
  rewrite orb_true_iff, !same_type_true. reflexivity.
Qed.

(** Every result is assembled over a span that ends at the cursor and starts
    at the resolved node, one past it (list node, string literal of a
    matcher), or (invalid match operator) at the matcher's trailing error
    token; snippets are asked for in the metric-name branch only. *)
Lemma promQL_shape (terms : PromQLTerms) (client : option PrometheusClient)
    (ctx : AutocompleteContext) (r : CompletionResult) :
  returns (HybridComplete.promQL terms client ctx) r ->
  exists data a includeSnippet,
    r = HybridComplete.arrayToCompletionResult data a (pos ctx) ctx (state ctx)
          includeSnippet
    /\ (includeSnippet = true -> atMetricIdentifier (resolved ctx))
    /\ (a = start (resolved ctx)
        \/ (a = start (resolved ctx) + 1
            /\ (atListNode (resolved ctx) \/ atMatcherString (resolved ctx)))
        \/ (type_id (resolved ctx) = LabelMatcher
            /\ exists lc, lastChild (resolved ctx) = Some lc
                          /\ type_id lc = ErrorNode /\ a = start lc)).
Proof.
  unfold returns. open_promQL ctx. set (t := resolved ctx).
  destruct (has_type (parent t) MetricIdentifier && same_type (type_id t) Identifier)
    eqn:B1.
  { apply metric_branch_condition in B1.
    destruct client; intros [Hr|Hr]; settle Hr;
      do 3 eexists; (split; [reflexivity|]); split; auto. }
  destruct (same_type (type_id t) GroupingLabels || _) eqn:B2.
  { unfold HybridComplete.labelNames.
    destruct client; intros [Hr|Hr]; settle Hr.
    do 3 eexists. split; [reflexivity|]. split; [discriminate|].
    destruct (same_type (type_id t) GroupingLabels
              || same_type (type_id t) LabelMatchers) eqn:E; [|now left].
    apply listNode_condition in E. auto. }
  destruct (same_type (type_id t) LabelMatchers || _) eqn:B3.
  { unfold HybridComplete.autocompleteLabelNamesByMetric, HybridComplete.labelNames.
    destruct client; intros [Hr|Hr]; settle Hr.
    do 3 eexists. split; [reflexivity|]. split; [discriminate|].
    destruct (same_type (type_id t) GroupingLabels
              || same_type (type_id t) LabelMatchers) eqn:E; [|now left].
    apply listNode_condition in E. auto. }
  destruct (has_type (parent t) LabelMatcher && same_type (type_id t) StringLiteral)
    eqn:B4.
  { apply matcherString_condition in B4.
    destruct (parent t) as [p|]; [|intros [Hr|Hr]; discriminate Hr].
    unfold HybridComplete.autocompleteLabelValue.
    destruct client; intros [Hr|Hr]; settle Hr.
    do 3 eexists. split; [reflexivity|]. split; [discriminate|]. auto. }
  match goal with |- (if ?c then _ else _) = _ \/ _ -> _ => destruct c eqn:B5 end.
  { rewrite !andb_true_iff in B5. destruct B5 as [[[Ht _] Hl] _].
    apply same_type_true in Ht.
    destruct (lastChild t) as [lc|] eqn:Elc; [|intros [Hr|Hr]; discriminate Hr].
    simpl in Hl. apply same_type_true in Hl.
    intros [Hr|Hr]; settle Hr.
    do 3 eexists. split; [reflexivity|]. split; [discriminate|].
    right. right. split; [exact Ht|]. exists lc. auto. }
  repeat match goal with
         | |- (if ?c then _ else _) = _ \/ _ -> _ => destruct c
         end;
    intros [Hr|Hr]; settle Hr;
    do 3 eexists; (split; [reflexivity|]); (split; [discriminate|]); auto.
Qed.

(** ** The replacement span *)

(** In [foo{bar  !}] with the cursor between the two blanks the resolver
    takes the invalid-match-operator branch and anchors the span at the
    trailing [!], which lies after the cursor. *)
Lemma replacement_span_counterexample :
  exists r,
    returns (HybridComplete.promQL Sample.terms None Sample.ctx_gap) r
    /\ from r = 9
    /\ pos Sample.ctx_gap = 8
    /\ ~ (from r <= pos Sample.ctx_gap <= to r).
Proof.
  eexists. split; [left; reflexivity|].
  split; [reflexivity|]. split; [reflexivity|].
  intros [H _]. vm_compute in H. now apply H.
Qed.

(** C3.  The invalid-match-operator branch anchors the replacement at the
    matcher's trailing error token without looking at the cursor: whenever
    the cursor lies before that token, the returned span is inverted, its
    start after its end ([to = pos < from]), with or without a client. *)
Theorem invalid_operator_span_inverted
    (terms : PromQLTerms) (client : option PrometheusClient)
    (ctx : AutocompleteContext) (fc lc : Subtree) :
  type_id (resolved ctx) = LabelMatcher ->
  firstChild (resolved ctx) = Some fc -> type_id fc = LabelName ->
  lastChild (resolved ctx) = Some lc -> type_id lc = ErrorNode ->
  firstChild lc = None ->
  pos ctx < start lc ->
  exists r,
    returns (HybridComplete.promQL terms client ctx) r
    /\ from r = start lc
    /\ to r = pos ctx
    /\ to r < from r
    /\ ~ (from r <= pos ctx <= to r).
Proof.
  intros Ht Hfc Hfl Hlc Hll Hnone Hpos.
  exists (HybridComplete.arrayToCompletionResult [HybridComplete.matchOp terms]
            (start lc) (pos ctx) ctx (state ctx) false).
  split.
  { left. open_promQL ctx.
    rewrite Ht, Hfc, Hlc; decide_types. simpl has_type.
    rewrite Hfl, Hll, Hnone; decide_types. reflexivity. }
  rewrite arrayToCompletionResult_from, arrayToCompletionResult_to.
  repeat split; lia.
Qed.

Lemma invalid_operator_span_inverted_witness :
  exists r,
    returns (HybridComplete.promQL Sample.terms None Sample.ctx_gap) r
    /\ from r = 9
    /\ to r = 8
    /\ to r < from r
    /\ ~ (from r <= 8 <= to r).
Proof.
  apply (invalid_operator_span_inverted Sample.terms None Sample.ctx_gap
           (Sample.focus (mkSubtree Sample.tree_gap []) [0; 0; 1; 0; 0]%nat)
           (Sample.focus (mkSubtree Sample.tree_gap []) [0; 0; 1; 0; 1]%nat));
    reflexivity.
Defined.

(** Every other branch anchors at the resolved node: when that node is no
    label matcher and starts at or before the cursor (strictly before it for
    a list node or a matcher's string literal, whose span skips the opening
    delimiter), the returned span holds the cursor and ends at it. *)
Lemma span_holds_cursor_outside_matcher
    (terms : PromQLTerms) (client : option PrometheusClient)
    (ctx : AutocompleteContext) (r : CompletionResult) :
  type_id (resolved ctx) <> LabelMatcher ->
  start (resolved ctx) <= pos ctx ->
  (atListNode (resolved ctx) \/ atMatcherString (resolved ctx) ->
   start (resolved ctx) < pos ctx) ->
  returns (HybridComplete.promQL terms client ctx) r ->
  to r = pos ctx /\ from r <= pos ctx <= to r.
Proof.
  intros Hnot Hstart Hskip Hr.
  destruct (promQL_shape terms client ctx r Hr)
    as (data & a & incl & -> & _ & Ha).
  rewrite arrayToCompletionResult_from, arrayToCompletionResult_to.
  split; [reflexivity|].
  destruct Ha as [->|[(-> & Hnode)|(Ht & _)]].
  - lia.
  - specialize (Hskip Hnode). lia.
  - contradiction.
Qed.

(** The end of the span is the cursor in every branch. *)
Lemma span_ends_at_cursor
    (terms : PromQLTerms) (client : option PrometheusClient)
    (ctx : AutocompleteContext) (r : CompletionResult) :
  returns (HybridComplete.promQL terms client ctx) r -> to r = pos ctx.
Proof.
  intros Hr.
  destruct (promQL_shape terms client ctx r Hr) as (data & a & incl & -> & _).
  reflexivity.
Qed.

(** ** Snippets *)

Lemma candidates_not_snippets (data : list AutoCompleteNode) (c : Completion) :
  In c (candidates data) -> isSnippet c = false.
Proof.
  unfold candidates. rewrite in_flat_map.
  intros (n & _ & Hc). apply in_map_iff in Hc.
  destruct Hc as (l & <- & _). reflexivity.
Qed.

(** C8.  With a host filter that hands candidates back with the way they
    are applied unchanged, a returned result holds a snippet candidate only
    when the invocation was classified into the metric-name-identifier
    branch: the result of every other branch contains no snippet. *)
Theorem snippets_only_in_metric_branch
    (terms : PromQLTerms) (client : option PrometheusClient)
    (ctx : AutocompleteContext) (r : CompletionResult) :
  filterKeepsApply ctx ->
  returns (HybridComplete.promQL terms client ctx) r ->
  (exists o, In o (options r) /\ isSnippet o = true) ->
  atMetricIdentifier (resolved ctx).
Proof.
  intros Hfilter Hr (o & Ho & Hsnip).
  destruct (promQL_shape terms client ctx r Hr)
    as (data & a & incl & -> & Hincl & _).
  destruct incl; [now apply Hincl|].
  rewrite arrayToCompletionResult_options, app_nil_r in Ho.
  apply In_kept in Ho. destruct Ho as (c & Hc & Hf).
  apply candidates_not_snippets in Hc.
  apply Hfilter in Hf. unfold isSnippet in *. rewrite Hf in Hsnip. congruence.
Qed.

Lemma prefixFilter_keeps_apply (st : EditorState) (p : Z) :
  filterKeepsApply (mkContext st p Sample.prefixFilter).
Proof.
  intros c text c'. simpl. unfold Sample.prefixFilter.
  destruct (prefix text (label c)); [|discriminate].
  now intros [= <-].
Qed.

Lemma snippets_only_in_metric_branch_witness :
  atMetricIdentifier (resolved Sample.ctx_sum).
Proof.
  apply (snippets_only_in_metric_branch Sample.terms None Sample.ctx_sum
           (HybridComplete.arrayToCompletionResult
              (HybridComplete.nonMetricCompletions Sample.terms
                 (resolved Sample.ctx_sum))
              0 3 Sample.ctx_sum (state Sample.ctx_sum) true)).
  - apply prefixFilter_keeps_apply.
  - left. reflexivity.
  - eexists. split.
    + simpl. right. left. reflexivity.
    + reflexivity.
Defined.

(** ** Failed metadata fetches *)

Lemma parsed_failed (o : RemoteClient.FetchOutcome) :
  RemoteClient.fetchFailed o = true -> RemoteClient.parsed o = [].
Proof.
  destruct o as [|status [names|]]; simpl; try reflexivity.
  destruct (RemoteClient.is2xx status); [discriminate | reflexivity].
Qed.

(** The remote client settles every lookup by fulfilling it. *)
Lemma remoteClient_resolves (e : RemoteClient.Endpoint) :
  (forall scope, exists names,
     labelNames (RemoteClient.remoteClient e) scope = Resolved names)
  /\ (forall l scope, exists values,
        labelValues (RemoteClient.remoteClient e) l scope = Resolved values).
Proof. split; intros; eexists; reflexivity. Qed.

(** The resolver itself attaches no rejection handler: were the client's
    promise rejected, the promise handed to the host would be rejected with
    the same reason.  That no failure reaches the host rests on the client
    fulfilling every lookup. *)
Lemma promQL_passes_rejection (terms : PromQLTerms) (client : PrometheusClient)
    (ctx : AutocompleteContext) (reason : string) :
  atMetricIdentifier (resolved ctx) ->
  labelValues client "__name__" None = Rejected reason ->
  HybridComplete.promQL terms (Some client) ctx = Async (Rejected reason).
Proof.
  intros H E. rewrite (promQL_metric_branch_online terms client ctx H).
  now rewrite E.
Qed.

(** C1.  With the remote metadata provider, an invocation whose branch
    fetches metadata and whose fetch fails (network error, status outside
    2xx, malformed payload) is not rejected: its promise is fulfilled, with
    no candidate at all in the label branches, and in the metric-name branch
    with exactly the result the resolver gives without a provider, that is
    the static grammar candidates and snippets only. *)
Theorem failed_fetch_degrades
    (terms : PromQLTerms) (e : RemoteClient.Endpoint) (ctx : AutocompleteContext)
    (p : Promise CompletionResult) :
  (forall scope, RemoteClient.fetchFailed (RemoteClient.getLabelNames e scope) = true) ->
  (forall l scope,
     RemoteClient.fetchFailed (RemoteClient.getLabelValues e l scope) = true) ->
  HybridComplete.promQL terms (Some (RemoteClient.remoteClient e)) ctx = Async p ->
  exists r,
    p = Resolved r
    /\ (options r = [] \/ HybridComplete.promQL terms None ctx = Sync r).
Proof.
  intros Hnames Hvalues.
  destruct (has_type (parent (resolved ctx)) MetricIdentifier
            && same_type (type_id (resolved ctx)) Identifier) eqn:B1.
  { apply metric_branch_condition in B1.
    rewrite (promQL_metric_branch_online terms _ ctx B1),
      (promQL_metric_branch_offline terms ctx B1).
    simpl. rewrite (parsed_failed _ (Hvalues "__name__" None)).
    intros [= <-]. eexists. split; [reflexivity|]. right. reflexivity. }
  open_promQL ctx. rewrite B1. set (t := resolved ctx).
  destruct (same_type (type_id t) GroupingLabels || _).
  { unfold HybridComplete.labelNames. simpl.
    rewrite (parsed_failed _ (Hnames None)).
    intros [= <-]. eexists. split; [reflexivity|]. left. reflexivity. }
  destruct (same_type (type_id t) LabelMatchers || _).
  { unfold HybridComplete.autocompleteLabelNamesByMetric, HybridComplete.labelNames.
    simpl. rewrite (parsed_failed _ (Hnames _)).
    intros [= <-]. eexists. split; [reflexivity|]. left. reflexivity. }
  destruct (has_type (parent t) LabelMatcher && same_type (type_id t) StringLiteral).
  { destruct (parent t) as [q|]; [|discriminate].
    unfold HybridComplete.autocompleteLabelValue. simpl.
    rewrite (parsed_failed _ (Hvalues _ _)).
    intros [= <-]. eexists. split; [reflexivity|]. left. reflexivity. }
  match goal with |- (if ?c then _ else _) = _ -> _ => destruct c end.
  { destruct (lastChild t); discriminate. }
  repeat match goal with
         | |- (if ?c then _ else _) = _ -> _ => destruct c
         end; discriminate.
Qed.

Lemma failed_fetch_degrades_witness :
  exists r,
    HybridComplete.promQL Sample.terms
      (Some (RemoteClient.remoteClient Sample.endpoint_down)) Sample.ctx_ra
    = Async (Resolved r)
    /\ (options r = [] \/ HybridComplete.promQL Sample.terms None Sample.ctx_ra = Sync r).
Proof.
  destruct (failed_fetch_degrades Sample.terms Sample.endpoint_down Sample.ctx_ra
              (Resolved (HybridComplete.arrayToCompletionResult
                           (HybridComplete.nonMetricCompletions Sample.terms
                              (resolved Sample.ctx_ra))
                           0 2 Sample.ctx_ra (state Sample.ctx_ra) true)))
    as (r & E & H).
  - reflexivity.
  - reflexivity.
  - reflexivity.
  - exists r. split; [now rewrite <- E | exact H].
Defined.

(** ** The language-server client *)

Lemma collect_fold (answers : list LSPClient.AutocompleteResponse) :
  forall acc te,
    fold_left LSPClient.collect answers (acc, te)
    = ((acc ++ map (fun res => LSPClient.mkCompletion (shownLabel res)) answers)%list,
       lastEdit answers te).
Proof.
  induction answers as [|res answers IH]; intros acc te; simpl.
  - now rewrite app_nil_r.
  - unfold shownLabel at 1.
    destruct (LSPClient.textEdit res) as [te'|]; rewrite IH, <- app_assoc;
      reflexivity.
Qed.

(** The request goes to the completion endpoint with the body built from
    the context; the promise of [autocomplete] settles as that request
    does. *)
Lemma autocomplete_settles (url : string)
    (post : string -> LSPClient.Body -> Promise LSPClient.AxiosResponse)
    (ctx : AutocompleteContext) :
  match post (url ++ "/completion") (LSPClient.requestBody ctx) with
  | Rejected reason => LSPClient.autocomplete url post ctx = Rejected reason
  | Resolved response =>
      exists r,
        LSPClient.autocomplete url post ctx = Resolved r
        /\ LSPClient.to r = pos ctx
        /\ LSPClient.options r
           = match LSPClient.data response with
             | Some answers =>
                 map (fun res => LSPClient.mkCompletion (shownLabel res)) answers
             | None => []
             end
        /\ LSPClient.from r
           = match LSPClient.data response with
             | Some answers =>
                 match lastEdit answers None with
                 | Some te =>
                     line_from (lineAt (doc (state ctx)) (pos ctx))
                     + LSPClient.character (LSPClient.range_start (LSPClient.range te))
                 | None => line_from (lineAt (doc (state ctx)) (pos ctx))
                 end
             | None => line_from (lineAt (doc (state ctx)) (pos ctx))
             end
  end.
Proof.
  unfold LSPClient.autocomplete, LSPClient.autocompleteEndpoint.
  destruct (post _ _) as [response|reason]; simpl; [|reflexivity].
  destruct (LSPClient.data response) as [answers|].
  - rewrite collect_fold. simpl. eexists. split; [reflexivity|]. simpl. auto.
  - eexists. split; [reflexivity|]. simpl. auto.
Qed.

(** On the one-line document [foo] with the cursor at its end the posted
    character is 2, not 3. *)
Lemma positionChar_counterexample :
  pos (Sample.ctx_lsp 3)
  - line_from (lineAt (doc (state (Sample.ctx_lsp 3))) (pos (Sample.ctx_lsp 3))) = 3
  /\ LSPClient.positionChar (LSPClient.requestBody (Sample.ctx_lsp 3)) = 2
  /\ LSPClient.positionChar (LSPClient.requestBody (Sample.ctx_lsp 3))
     <> pos (Sample.ctx_lsp 3)
        - line_from (lineAt (doc (state (Sample.ctx_lsp 3))) (pos (Sample.ctx_lsp 3))).
Proof. split; [reflexivity|]. split; [reflexivity|]. discriminate. Qed.

(** C2.  In the request body [positionLine] is the editor's 1-based line
    number minus 1.  [positionChar] is the cursor offset minus the start
    offset of the cursor's line only up to one character into the line; from
    two characters on, the body carries one less. *)
Theorem requestBody_position_off_by_one (ctx : AutocompleteContext) :
  LSPClient.positionLine (LSPClient.requestBody ctx)
  = line_number (lineAt (doc (state ctx)) (pos ctx)) - 1
  /\ ((pos ctx - line_from (lineAt (doc (state ctx)) (pos ctx)) <= 1
       /\ LSPClient.positionChar (LSPClient.requestBody ctx)
          = pos ctx - line_from (lineAt (doc (state ctx)) (pos ctx)))
      \/ (2 <= pos ctx - line_from (lineAt (doc (state ctx)) (pos ctx))
          /\ LSPClient.positionChar (LSPClient.requestBody ctx)
             = pos ctx - line_from (lineAt (doc (state ctx)) (pos ctx)) - 1)).
Proof.
  unfold LSPClient.requestBody; simpl.
  set (d := pos ctx - line_from (lineAt (doc (state ctx)) (pos ctx))).
  split; [reflexivity|].
  pose proof (Zgt_cases (d - 1) 0) as G.
  destruct (d - 1 >? 0); [right | left]; lia.
Qed.

(** On the one-line document [foo] the cursors after the first and after
    the second character post the same character, 1. *)
Example positionChar_collision :
  LSPClient.positionChar (LSPClient.requestBody (Sample.ctx_lsp 1)) = 1
  /\ LSPClient.positionChar (LSPClient.requestBody (Sample.ctx_lsp 2)) = 1.
Proof. split; reflexivity. Qed.

(** One character into the line the posted character is 1. *)
Example positionChar_after_first_character :
  LSPClient.positionChar (LSPClient.requestBody (Sample.ctx_lsp 1)) = 1.
Proof. reflexivity. Qed.

(** C9.  On a single-line document that starts at offset 0, when the
    language server answers
    [{label: "foo", textEdit: {range: {start: {line 0, character 3},
    end: {line 0, character 5}}, newText: "foobar"}}], the completion has
    [from] equal to 3, [to] equal to the cursor offset, and exactly one
    candidate, labelled "foobar". *)
Theorem lsp_textEdit_scenario (url : string)
    (post : string -> LSPClient.Body -> Promise LSPClient.AxiosResponse)
    (ctx : AutocompleteContext) :
  line_from (lineAt (doc (state ctx)) (pos ctx)) = 0 ->
  post (url ++ "/completion") (LSPClient.requestBody ctx)
  = Resolved (LSPClient.mkAxiosResponse (Some [Sample.answer_foo])) ->
  LSPClient.autocomplete url post ctx
  = Resolved {| LSPClient.from := 3;
                LSPClient.to := pos ctx;
                LSPClient.options := [LSPClient.mkCompletion "foobar"] |}.
Proof.
  intros Hline Hpost.
  unfold LSPClient.autocomplete, LSPClient.autocompleteEndpoint.
  rewrite Hpost. simpl. rewrite Hline. reflexivity.
Qed.

Lemma lsp_textEdit_scenario_witness :
  LSPClient.autocomplete "http://localhost:8080/lsp" Sample.server_foo
    (Sample.ctx_lsp 3)
  = Resolved {| LSPClient.from := 3;
                LSPClient.to := 3;
                LSPClient.options := [LSPClient.mkCompletion "foobar"] |}.
Proof.
  apply (lsp_textEdit_scenario "http://localhost:8080/lsp" Sample.server_foo
           (Sample.ctx_lsp 3)); reflexivity.
Defined.

(** * Further properties of the resolver *)

Lemma grouping_condition (t : Subtree) :
  same_type (type_id t) GroupingLabels
  || (has_type (parent t) GroupingLabel && same_type (type_id t) LabelName) = true
  <-> inGroupingLabels t.
Proof.
  rewrite orb_true_iff, andb_true_iff, has_type_true, !same_type_true.
  unfold inGroupingLabels. tauto.
Qed.

Lemma matchers_condition (t : Subtree) :
  same_type (type_id t) LabelMatchers
  || (has_type (parent t) LabelMatcher && same_type (type_id t) LabelName) = true
  <-> inLabelMatchers t.
Proof.
  rewrite orb_true_iff, andb_true_iff, has_type_true, !same_type_true.
  unfold inLabelMatchers. tauto.
Qed.

Lemma parentAvoids_has_type (t : Subtree) (tys : list NodeType) (T : NodeType) :
  parentAvoids t tys -> In T tys -> has_type (parent t) T = false.
Proof.
  intros Havoid Hin. destruct (has_type (parent t) T) eqn:E; [|reflexivity].
  apply has_type_true in E. destruct E as (p & Hp & Hty).
  exfalso. apply (Havoid p Hp). now rewrite Hty.
Qed.

Lemma kept_length (ctx : AutocompleteContext) (text : string) (cs : list Completion) :
  (List.length (kept ctx text cs) <= List.length cs)%nat.
Proof.
  induction cs as [|c cs IH]; simpl; [lia|].
  rewrite length_app. destruct (filter ctx c text); simpl; lia.
Qed.

Lemma candidates_length (data : list AutoCompleteNode) :
  List.length (candidates data) = labelCount data.
Proof.
  unfold candidates, labelCount.
  induction data as [|n data IH]; simpl; [reflexivity|].
  now rewrite length_app, length_map, IH.
Qed.

Lemma candidates_app (d1 d2 : list AutoCompleteNode) :
  candidates (d1 ++ d2) = (candidates d1 ++ candidates d2)%list.
Proof. unfold candidates. apply flat_map_app. Qed.

(** X1.  Without a client the resolver never hands back a promise: whatever
    the node, the answer is immediate ([null] or a result), so no lookup is
    ever pending. *)
Theorem offline_never_defers (terms : PromQLTerms) (ctx : AutocompleteContext)
    (p : Promise CompletionResult) :
  HybridComplete.promQL terms None ctx <> Async p.
Proof.
  unfold HybridComplete.promQL, HybridComplete.autocompleteLabelNamesByMetric,
    HybridComplete.labelNames, HybridComplete.autocompleteLabelValue.
  cbv zeta.
  repeat match goal with
         | |- (if ?c then _ else _) <> _ => destruct c
         end;
    first
      [ discriminate
      | match goal with
        | |- context [match parent ?x with _ => _ end] => destruct (parent x)
        | |- context [match lastChild ?x with _ => _ end] => destruct (lastChild x)
        end; discriminate ].
Qed.

(** X2.  Outside the four metadata branches (metric-name identifier,
    grouping labels, label matchers, matcher string literal) the client is
    not consulted: the answer with any client is the answer without one. *)
Theorem static_branches_ignore_client
    (terms : PromQLTerms) (client : PrometheusClient) (ctx : AutocompleteContext) :
  ~ atMetricIdentifier (resolved ctx) ->
  ~ inGroupingLabels (resolved ctx) ->
  ~ inLabelMatchers (resolved ctx) ->
  ~ atMatcherString (resolved ctx) ->
  HybridComplete.promQL terms (Some client) ctx
  = HybridComplete.promQL terms None ctx.
Proof.
  intros H1 H2 H3 H4. open_promQL ctx. set (t := resolved ctx) in *.
  destruct (has_type (parent t) MetricIdentifier && same_type (type_id t) Identifier)
    eqn:B1; [apply metric_branch_condition in B1; contradiction|].
  destruct (same_type (type_id t) GroupingLabels || _) eqn:B2;
    [apply grouping_condition in B2; contradiction|].
  destruct (same_type (type_id t) LabelMatchers || _) eqn:B3;
    [apply matchers_condition in B3; contradiction|].
  destruct (has_type (parent t) LabelMatcher && same_type (type_id t) StringLiteral)
    eqn:B4; [apply matcherString_condition in B4; contradiction|].
  reflexivity.
Qed.

Lemma static_branches_ignore_client_witness :
  HybridComplete.promQL Sample.terms (Some MoreSamples.client_broken)
    MoreSamples.ctx_bang
  = HybridComplete.promQL Sample.terms None MoreSamples.ctx_bang.
Proof.
  apply (static_branches_ignore_client Sample.terms MoreSamples.client_broken
           MoreSamples.ctx_bang).
  - intros (H & _). discriminate H.
  - intros [H|(H & _)]; discriminate H.
  - intros [H|(H & _)]; discriminate H.
  - intros (H & _). discriminate H.
Defined.

(** X3.  In the metric-name branch with a client that answers, the result
    covers the same span as the result without a client, and its candidates
    are the kept metric names, of kind "constant", followed by exactly the
    candidates of the result without a client. *)
Theorem online_metric_branch_prepends
    (terms : PromQLTerms) (client : PrometheusClient) (ctx : AutocompleteContext)
    (metricNames : list string) :
  atMetricIdentifier (resolved ctx) ->
  labelValues client "__name__" None = Resolved metricNames ->
  exists online offline,
    HybridComplete.promQL terms (Some client) ctx = Async (Resolved online)
    /\ HybridComplete.promQL terms None ctx = Sync offline
    /\ from online = from offline
    /\ to online = to offline
    /\ options online
       = (kept ctx (sliceDoc (state ctx) (start (resolved ctx)) (pos ctx))
            (map (HybridComplete.termCompletion "constant") metricNames)
          ++ options offline)%list.
Proof.
  intros H E.
  rewrite (promQL_metric_branch_online terms client ctx H),
    (promQL_metric_branch_offline terms ctx H), E.
  do 2 eexists. split; [reflexivity|]. split; [reflexivity|].
  split; [reflexivity|]. split; [reflexivity|].
  rewrite !arrayToCompletionResult_options.
  change (mkAutoCompleteNode metricNames "constant"
            :: HybridComplete.nonMetricCompletions terms (resolved ctx))
    with ([mkAutoCompleteNode metricNames "constant"]
            ++ HybridComplete.nonMetricCompletions terms (resolved ctx))%list.
  rewrite candidates_app, <- app_assoc, kept_app.
  f_equal. unfold candidates; simpl. now rewrite app_nil_r.
Qed.

Lemma online_metric_branch_prepends_witness :
  exists online offline,
    HybridComplete.promQL Sample.terms (Some Sample.client_up) Sample.ctx_ra
    = Async (Resolved online)
    /\ HybridComplete.promQL Sample.terms None Sample.ctx_ra = Sync offline
    /\ from online = from offline
    /\ to online = to offline
    /\ options online
       = (kept Sample.ctx_ra "ra"
            (map (HybridComplete.termCompletion "constant")
               ["up"; "rate_limit_total"])
          ++ options offline)%list.
Proof.
  apply (online_metric_branch_prepends Sample.terms Sample.client_up Sample.ctx_ra
           ["up"; "rate_limit_total"]).
  - split; [reflexivity|]. eexists. split; reflexivity.
  - reflexivity.
Defined.

(** X4.  The resolver attaches no rejection handler: with a client whose
    lookups are rejected, every promise the resolver hands back is rejected
    with the client's reason, and the static candidates of the metric-name
    branch are lost with it. *)
Theorem rejected_lookup_rejects_completion
    (terms : PromQLTerms) (client : PrometheusClient) (ctx : AutocompleteContext)
    (reason : string) (p : Promise CompletionResult) :
  (forall scope, labelNames client scope = Rejected reason) ->
  (forall l scope, labelValues client l scope = Rejected reason) ->
  HybridComplete.promQL terms (Some client) ctx = Async p ->
  p = Rejected reason.
Proof.
  intros Hnames Hvalues.
  unfold HybridComplete.promQL, HybridComplete.autocompleteLabelNamesByMetric,
    HybridComplete.labelNames, HybridComplete.autocompleteLabelValue.
  cbv zeta.
  repeat match goal with
         | |- (if ?c then _ else _) = _ -> _ => destruct c
         end;
    first
      [ discriminate
      | rewrite ?Hnames, ?Hvalues; simpl; now intros [= <-]
      | match goal with
        | |- context [match parent ?x with _ => _ end] => destruct (parent x)
        | |- context [match lastChild ?x with _ => _ end] => destruct (lastChild x)
        end;
        first [ discriminate | rewrite Hvalues; simpl; now intros [= <-] ] ].
Qed.

Lemma rejected_lookup_rejects_completion_witness :
  exists p,
    HybridComplete.promQL Sample.terms (Some MoreSamples.client_broken) Sample.ctx_ra
    = Async p
    /\ p = Rejected "Network Error".
Proof.
  eexists. split; [reflexivity|].
  apply (rejected_lookup_rejects_completion Sample.terms MoreSamples.client_broken
           Sample.ctx_ra "Network Error");
    reflexivity.
Defined.

(** X5.  In the grouping-labels branch the label names are looked up
    without a metric scope, and the result holds the names the host filter
    keeps against the text between the replacement start and the cursor,
    each of kind "constant". *)
Theorem grouping_labels_unscoped
    (terms : PromQLTerms) (client : PrometheusClient) (ctx : AutocompleteContext)
    (names : list string) :
  inGroupingLabels (resolved ctx) ->
  labelNames client None = Resolved names ->
  exists r,
    HybridComplete.promQL terms (Some client) ctx = Async (Resolved r)
    /\ to r = pos ctx
    /\ options r
       = kept ctx (sliceDoc (state ctx) (from r) (pos ctx))
           (map (HybridComplete.termCompletion "constant") names).
Proof.
  intros H E. open_promQL ctx. set (t := resolved ctx) in *.
  assert (B1 : has_type (parent t) MetricIdentifier
               && same_type (type_id t) Identifier = false).
  { destruct (_ && _) eqn:B; [|reflexivity].
    apply metric_branch_condition in B. destruct B as (B & _).
    destruct H as [H|(H & _)]; congruence. }
  rewrite B1. apply grouping_condition in H. rewrite H.
  unfold HybridComplete.labelNames. rewrite E.
  eexists. split; [reflexivity|]. split; [reflexivity|].
  rewrite arrayToCompletionResult_options, arrayToCompletionResult_from.
  unfold candidates; simpl. now rewrite !app_nil_r.
Qed.

Lemma grouping_labels_unscoped_witness :
  exists r,
    HybridComplete.promQL Sample.terms (Some MoreSamples.client_scoped) Sample.ctx_by
    = Async (Resolved r)
    /\ to r = 8
    /\ options r
       = kept Sample.ctx_by (sliceDoc (state Sample.ctx_by) (from r) 8)
           (map (HybridComplete.termCompletion "constant") ["instance"; "job"; "le"]).
Proof.
  apply (grouping_labels_unscoped Sample.terms MoreSamples.client_scoped
           Sample.ctx_by ["instance"; "job"; "le"]).
  - left. reflexivity.
  - reflexivity.
Defined.

(** X6.  In the label-matcher-list branch the label names are looked up
    under the metric name that [getMetricNameInVectorSelector] finds for the
    resolved node (the empty name when there is none), and the result holds
    the names the host filter keeps, each of kind "constant". *)
Theorem label_matchers_scoped_by_metric
    (terms : PromQLTerms) (client : PrometheusClient) (ctx : AutocompleteContext)
    (names : list string) :
  inLabelMatchers (resolved ctx) ->
  labelNames client
    (Some (HybridComplete.getMetricNameInVectorSelector (resolved ctx) (state ctx)))
  = Resolved names ->
  exists r,
    HybridComplete.promQL terms (Some client) ctx = Async (Resolved r)
    /\ to r = pos ctx
    /\ options r
       = kept ctx (sliceDoc (state ctx) (from r) (pos ctx))
           (map (HybridComplete.termCompletion "constant") names).
Proof.
  intros H E. open_promQL ctx. set (t := resolved ctx) in *.
  assert (B1 : has_type (parent t) MetricIdentifier
               && same_type (type_id t) Identifier = false).
  { destruct (_ && _) eqn:B; [|reflexivity].
    apply metric_branch_condition in B. destruct B as (B & _).
    destruct H as [H|(H & _)]; congruence. }
  assert (B2 : same_type (type_id t) GroupingLabels
               || (has_type (parent t) GroupingLabel
                   && same_type (type_id t) LabelName) = false).
  { destruct (_ || _) eqn:B; [|reflexivity].
    apply grouping_condition in B.
    destruct H as [H|(H & p & Hp & Hty)], B as [B|(B & q & Hq & Hty')];
      congruence. }
  rewrite B1, B2. apply matchers_condition in H. rewrite H.
  unfold HybridComplete.autocompleteLabelNamesByMetric, HybridComplete.labelNames.
  fold t. rewrite E.
  eexists. split; [reflexivity|]. split; [reflexivity|].
  rewrite arrayToCompletionResult_options, arrayToCompletionResult_from.
  unfold candidates; simpl. now rewrite !app_nil_r.
Qed.

Lemma label_matchers_scoped_by_metric_witness :
  exists r,
    HybridComplete.promQL Sample.terms (Some MoreSamples.client_scoped)
      MoreSamples.ctx_label
    = Async (Resolved r)
    /\ to r = 5
    /\ options r
       = kept MoreSamples.ctx_label
           (sliceDoc (state MoreSamples.ctx_label) (from r) 5)
           (map (HybridComplete.termCompletion "constant") ["instance"; "job"]).
Proof.
  apply (label_matchers_scoped_by_metric Sample.terms MoreSamples.client_scoped
           MoreSamples.ctx_label ["instance"; "job"]).
  - right. split; [reflexivity|]. eexists. split; reflexivity.
  - reflexivity.
Defined.

(** X7.  On a label matcher that starts with a label name and ends with a
    childless error token, the answer is immediate, with or without a
    client: the kept match operators, over the span from the error token's
    start to the cursor. *)
Theorem invalid_match_operator_completes
    (terms : PromQLTerms) (client : option PrometheusClient)
    (ctx : AutocompleteContext) (fc lc : Subtree) :
  type_id (resolved ctx) = LabelMatcher ->
  firstChild (resolved ctx) = Some fc -> type_id fc = LabelName ->
  lastChild (resolved ctx) = Some lc -> type_id lc = ErrorNode ->
  firstChild lc = None ->
  exists r,
    HybridComplete.promQL terms client ctx = Sync r
    /\ from r = start lc
    /\ to r = pos ctx
    /\ options r
       = kept ctx (sliceDoc (state ctx) (start lc) (pos ctx))
           (map (HybridComplete.termCompletion EmptyString) (matchOpTerms terms)).
Proof.
  intros Ht Hfc Hfl Hlc Hll Hnone. open_promQL ctx.
  rewrite Ht, Hfc, Hlc; decide_types. simpl has_type.
  rewrite Hfl, Hll, Hnone; decide_types.
  eexists. split; [reflexivity|]. split; [reflexivity|]. split; [reflexivity|].
  rewrite arrayToCompletionResult_options.
  unfold candidates; simpl. now rewrite !app_nil_r.
Qed.

Lemma invalid_match_operator_completes_witness :
  exists r,
    HybridComplete.promQL Sample.terms None MoreSamples.ctx_bang = Sync r
    /\ from r = 7
    /\ to r = 8
    /\ options r
       = kept MoreSamples.ctx_bang "!"
           (map (HybridComplete.termCompletion EmptyString)
              (matchOpTerms Sample.terms)).
Proof.
  apply (invalid_match_operator_completes Sample.terms None MoreSamples.ctx_bang
           (Sample.focus (mkSubtree MoreSamples.tree_bang []) [0; 0; 1; 0; 0]%nat)
           (Sample.focus (mkSubtree MoreSamples.tree_bang []) [0; 0; 1; 0; 1]%nat));
    reflexivity.
Defined.

(** X8.  When the trailing error token of a label matcher has a child (as
    in [foo{bar==}]), the match-operator completion is discontinued: for a
    matcher that sits in a matcher list the answer is [null], with or
    without a client. *)
Theorem invalid_operator_with_child_discontinues
    (terms : PromQLTerms) (client : option PrometheusClient)
    (ctx : AutocompleteContext) (p lc inner : Subtree) :
  type_id (resolved ctx) = LabelMatcher ->
  parent (resolved ctx) = Some p -> type_id p = LabelMatchers ->
  lastChild (resolved ctx) = Some lc ->
  firstChild lc = Some inner ->
  HybridComplete.promQL terms client ctx = NoCompletion.
Proof.
  intros Ht Hp Hpt Hlc Hinner. open_promQL ctx.
  rewrite Ht, !(has_type_parent _ _ Hp), Hpt, Hlc, Hinner; decide_types.
  reflexivity.
Qed.

Lemma invalid_operator_with_child_discontinues_witness :
  HybridComplete.promQL Sample.terms (Some Sample.client_up) MoreSamples.ctx_eqeq
  = NoCompletion.
Proof.
  apply (invalid_operator_with_child_discontinues Sample.terms
           (Some Sample.client_up) MoreSamples.ctx_eqeq
           (Sample.focus (mkSubtree MoreSamples.tree_eqeq []) [0; 0; 1]%nat)
           (Sample.focus (mkSubtree MoreSamples.tree_eqeq []) [0; 0; 1; 0; 1]%nat)
           (Sample.focus (mkSubtree MoreSamples.tree_eqeq []) [0; 0; 1; 0; 1; 0]%nat));
    reflexivity.
Defined.

(** X9.  An error token that sits directly in a matcher list gets no
    completion: the keyword fallback is switched off there, and the answer
    is [null] with or without a client. *)
Theorem error_token_in_matcher_list_is_silent
    (terms : PromQLTerms) (client : option PrometheusClient)
    (ctx : AutocompleteContext) (p : Subtree) :
  type_id (resolved ctx) = ErrorNode ->
  parent (resolved ctx) = Some p -> type_id p = LabelMatchers ->
  HybridComplete.promQL terms client ctx = NoCompletion.
Proof.
  intros Ht Hp Hpt. open_promQL ctx.
  rewrite Ht, !(has_type_parent _ _ Hp), Hpt; decide_types.
  destruct (has_type (firstChild (resolved ctx)) LabelName); reflexivity.
Qed.

Lemma error_token_in_matcher_list_is_silent_witness :
  HybridComplete.promQL Sample.terms None MoreSamples.ctx_stray = NoCompletion.
Proof.
  apply (error_token_in_matcher_list_is_silent Sample.terms None
           MoreSamples.ctx_stray
           (Sample.focus (mkSubtree MoreSamples.tree_stray []) [0; 0; 1]%nat));
    reflexivity.
Defined.

(** X10.  The keyword fallback: on an identifier whose parent is an error
    node, and on an error node whose parent (if it has one) is neither a
    matcher list, a match operator, a binary expression, a function
    identifier nor an aggregation operator, the answer is immediate, with or
    without a client: the kept aggregation modifiers (kind "keyword")
    followed by the kept binary operators, from the node's start to the
    cursor.  An error node without a parent is completed this way too. *)
Theorem keyword_fallback
    (terms : PromQLTerms) (client : option PrometheusClient)
    (ctx : AutocompleteContext) :
  (type_id (resolved ctx) = Identifier
   /\ exists p, parent (resolved ctx) = Some p /\ type_id p = ErrorNode)
  \/ (type_id (resolved ctx) = ErrorNode
      /\ parentAvoids (resolved ctx)
           [LabelMatchers; MatchOp; BinaryExpr; FunctionIdentifier; AggregateOp]) ->
  exists r,
    HybridComplete.promQL terms client ctx = Sync r
    /\ from r = start (resolved ctx)
    /\ to r = pos ctx
    /\ options r
       = kept ctx (sliceDoc (state ctx) (start (resolved ctx)) (pos ctx))
           (map (HybridComplete.termCompletion "keyword")
              (aggregateOpModifierTerms terms)
            ++ map (HybridComplete.termCompletion EmptyString) (binOpTerms terms)).
Proof.
  intros H.
  assert (E : HybridComplete.promQL terms client ctx
              = Sync (HybridComplete.arrayToCompletionResult
                        ([HybridComplete.aggregateOpModifier terms]
                           ++ [HybridComplete.binOp terms])
                        (start (resolved ctx)) (pos ctx) ctx (state ctx) false)).
  { open_promQL ctx. destruct H as [(Ht & p & Hp & Hpt)|(Ht & Havoid)].
    - rewrite Ht, !(has_type_parent _ _ Hp), Hpt; decide_types. reflexivity.
    - rewrite Ht; decide_types.
      rewrite !(parentAvoids_has_type _ _ _ Havoid) by (simpl; tauto).
      reflexivity. }
  rewrite E. eexists. split; [reflexivity|].
  split; [reflexivity|]. split; [reflexivity|].
  rewrite arrayToCompletionResult_options.
  unfold candidates; simpl. now rewrite !app_nil_r.
Qed.

Lemma keyword_fallback_witness :
  exists r,
    HybridComplete.promQL Sample.terms None MoreSamples.ctx_keyword = Sync r
    /\ from r = 8
    /\ to r = 9
    /\ options r
       = kept MoreSamples.ctx_keyword "w"
           (map (HybridComplete.termCompletion "keyword")
              (aggregateOpModifierTerms Sample.terms)
            ++ map (HybridComplete.termCompletion EmptyString)
                 (binOpTerms Sample.terms)).
Proof.
  apply (keyword_fallback Sample.terms None MoreSamples.ctx_keyword).
  right. split; [reflexivity|].
  intros p Hp. injection Hp as <-. simpl.
  intros [H|[H|[H|[H|[H|[]]]]]]; discriminate H.
Defined.

(** X11.  On a match-operator token the answer is always the kept match
    operators over the token's span, whatever its parent and with or without
    a client. *)
Theorem match_operator_token_completes
    (terms : PromQLTerms) (client : option PrometheusClient)
    (ctx : AutocompleteContext) :
  type_id (resolved ctx) = MatchOp ->
  exists r,
    HybridComplete.promQL terms client ctx = Sync r
    /\ from r = start (resolved ctx)
    /\ to r = pos ctx
    /\ options r
       = kept ctx (sliceDoc (state ctx) (start (resolved ctx)) (pos ctx))
           (map (HybridComplete.termCompletion EmptyString) (matchOpTerms terms)).
Proof.
  intros Ht. open_promQL ctx. rewrite Ht; decide_types.
  eexists. split; [reflexivity|]. split; [reflexivity|]. split; [reflexivity|].
  rewrite arrayToCompletionResult_options.
  unfold candidates; simpl. now rewrite !app_nil_r.
Qed.

Lemma match_operator_token_completes_witness :
  exists r,
    HybridComplete.promQL Sample.terms (Some Sample.client_up) MoreSamples.ctx_op
    = Sync r
    /\ from r = 6
    /\ to r = 7
    /\ options r
       = kept MoreSamples.ctx_op "="
           (map (HybridComplete.termCompletion EmptyString)
              (matchOpTerms Sample.terms)).
Proof.
  apply (match_operator_token_completes Sample.terms (Some Sample.client_up)
           MoreSamples.ctx_op).
  reflexivity.
Defined.

(** ** Further properties of the result assembler *)

(** X12.  The assembler never invents candidates: a result holds at most one
    candidate per label of the categories, plus at most one per snippet
    (three) when snippets are asked for. *)
Theorem assembled_options_bounded
    (data : list AutoCompleteNode) (a b : Z) (ctx : AutocompleteContext)
    (st : EditorState) (includeSnippet : bool) :
  (List.length
     (options (HybridComplete.arrayToCompletionResult data a b ctx st includeSnippet))
   <= labelCount data + (if includeSnippet then 3 else 0))%nat.
Proof.
  rewrite arrayToCompletionResult_options.
  eapply Nat.le_trans; [apply kept_length|].
  rewrite length_app, candidates_length.
  destruct includeSnippet; simpl; lia.
Qed.

(** X13.  The assembler keeps the order of its input: the candidates of a
    list of categories followed by another are those of the first list
    followed by those of the second, and the snippets come after all of
    them. *)
Theorem assembled_options_concat
    (d1 d2 : list AutoCompleteNode) (a b : Z) (ctx : AutocompleteContext)
    (st : EditorState) (includeSnippet : bool) :
  options (HybridComplete.arrayToCompletionResult (d1 ++ d2) a b ctx st includeSnippet)
  = (options (HybridComplete.arrayToCompletionResult d1 a b ctx st false)
     ++ options (HybridComplete.arrayToCompletionResult d2 a b ctx st false)
     ++ (if includeSnippet
         then kept ctx (sliceDoc st a b) parsedSnippets
         else []))%list.
Proof.
  rewrite !arrayToCompletionResult_options, candidates_app, !app_nil_r.
  rewrite !kept_app. rewrite <- app_assoc.
  destruct includeSnippet; reflexivity.
Qed.

(** * Further properties of the language-server client *)

Lemma lastEdit_none (answers : list LSPClient.AutocompleteResponse) :
  Forall (fun res => LSPClient.textEdit res = None) answers ->
  forall te, lastEdit answers te = te.
Proof.
  induction 1 as [|res answers Hres _ IH]; intros te; simpl.
  - reflexivity.
  - now rewrite Hres, IH.
Qed.

Lemma lastEdit_app (xs ys : list LSPClient.AutocompleteResponse) :
  forall te, lastEdit (xs ++ ys) te = lastEdit ys (lastEdit xs te).
Proof.
  induction xs as [|res xs IH]; intros te; simpl; [reflexivity|].
  now rewrite IH.
Qed.

Lemma shownLabel_plain (answers : list LSPClient.AutocompleteResponse) :
  Forall (fun res => LSPClient.textEdit res = None) answers ->
  map (fun res => LSPClient.mkCompletion (shownLabel res)) answers
  = map (fun res => LSPClient.mkCompletion (LSPClient.label res)) answers.
Proof.
  induction 1 as [|res answers Hres _ IH]; simpl; [reflexivity|].
  unfold shownLabel at 1. now rewrite Hres, IH.
Qed.

(** X14.  The language-server client attaches no rejection handler: when the
    request is rejected, the completion promise is rejected with the same
    reason. *)
Theorem lsp_rejection_propagates (url : string)
    (post : string -> LSPClient.Body -> Promise LSPClient.AxiosResponse)
    (ctx : AutocompleteContext) (reason : string) :
  post (url ++ "/completion") (LSPClient.requestBody ctx) = Rejected reason ->
  LSPClient.autocomplete url post ctx = Rejected reason.
Proof.
  intros E. pose proof (autocomplete_settles url post ctx) as H.
  now rewrite E in H.
Qed.

Lemma lsp_rejection_propagates_witness :
  LSPClient.autocomplete "http://localhost:8080/lsp" MoreSamples.server_down
    (Sample.ctx_lsp 3)
  = Rejected "Network Error".
Proof.
  apply (lsp_rejection_propagates "http://localhost:8080/lsp"
           MoreSamples.server_down (Sample.ctx_lsp 3) "Network Error").
  reflexivity.
Defined.

(** X15.  When the response data is not iterable, or no answer carries a
    text edit, the completion starts at the start of the cursor's line, ends
    at the cursor, and holds the answers' own labels, one per answer, in
    order (none when the data is not iterable). *)
Theorem lsp_without_edits (url : string)
    (post : string -> LSPClient.Body -> Promise LSPClient.AxiosResponse)
    (ctx : AutocompleteContext) (response : LSPClient.AxiosResponse) :
  post (url ++ "/completion") (LSPClient.requestBody ctx) = Resolved response ->
  (forall answers,
     LSPClient.data response = Some answers ->
     Forall (fun res => LSPClient.textEdit res = None) answers) ->
  LSPClient.autocomplete url post ctx
  = Resolved
      {| LSPClient.from := line_from (lineAt (doc (state ctx)) (pos ctx));
         LSPClient.to := pos ctx;
         LSPClient.options :=
           match LSPClient.data response with
           | Some answers =>
               map (fun res => LSPClient.mkCompletion (LSPClient.label res)) answers
           | None => []
           end |}.
Proof.
  intros E Hplain.
  unfold LSPClient.autocomplete, LSPClient.autocompleteEndpoint.
  rewrite E. simpl.
  destruct (LSPClient.data response) as [answers|]; [|reflexivity].
  specialize (Hplain answers eq_refl).
  rewrite collect_fold, (lastEdit_none _ Hplain), (shownLabel_plain _ Hplain).
  reflexivity.
Qed.

Lemma lsp_without_edits_witness :
  LSPClient.autocomplete "http://localhost:8080/lsp" MoreSamples.server_plain
    (Sample.ctx_lsp 1)
  = Resolved
      {| LSPClient.from := 0;
         LSPClient.to := 1;
         LSPClient.options :=
           [LSPClient.mkCompletion "rate"; LSPClient.mkCompletion "round"] |}.
Proof.
  apply (lsp_without_edits "http://localhost:8080/lsp" MoreSamples.server_plain
           (Sample.ctx_lsp 1)
           (LSPClient.mkAxiosResponse (Some MoreSamples.answers_plain))).
  - reflexivity.
  - intros answers [= <-]. repeat constructor.
Defined.

(** X16.  When several answers carry a text edit, the last one in the
    response decides: the completion starts at the line start plus the start
    character of the last edit, whatever the earlier edits say, and still
    ends at the cursor. *)
Theorem lsp_last_edit_wins (url : string)
    (post : string -> LSPClient.Body -> Promise LSPClient.AxiosResponse)
    (ctx : AutocompleteContext)
    (before after : list LSPClient.AutocompleteResponse)
    (res : LSPClient.AutocompleteResponse) (te : LSPClient.TextEdit) :
  post (url ++ "/completion") (LSPClient.requestBody ctx)
  = Resolved (LSPClient.mkAxiosResponse (Some (before ++ res :: after)%list)) ->
  LSPClient.textEdit res = Some te ->
  Forall (fun r => LSPClient.textEdit r = None) after ->
  exists r,
    LSPClient.autocomplete url post ctx = Resolved r
    /\ LSPClient.from r
       = line_from (lineAt (doc (state ctx)) (pos ctx))
         + LSPClient.character (LSPClient.range_start (LSPClient.range te))
    /\ LSPClient.to r = pos ctx.
Proof.
  intros E Hte Hafter.
  pose proof (autocomplete_settles url post ctx) as H.
  rewrite E in H. destruct H as (r & Hr & Hto & _ & Hfrom).
  exists r. split; [exact Hr|]. split; [|exact Hto].
  rewrite Hfrom. simpl.
  rewrite lastEdit_app. simpl. rewrite Hte, (lastEdit_none _ Hafter).
  reflexivity.
Qed.

Lemma lsp_last_edit_wins_witness :
  exists r,
    LSPClient.autocomplete "http://localhost:8080/lsp" MoreSamples.server_mixed
      (Sample.ctx_lsp 3)
    = Resolved r
    /\ LSPClient.from r = 0 + 2
    /\ LSPClient.to r = 3.
Proof.
  apply (lsp_last_edit_wins "http://localhost:8080/lsp" MoreSamples.server_mixed
           (Sample.ctx_lsp 3)
           [LSPClient.mkAutocompleteResponse "a" (Some (MoreSamples.edit 1 "alpha"))]
           [LSPClient.mkAutocompleteResponse "gamma" None]
           (LSPClient.mkAutocompleteResponse "b" (Some (MoreSamples.edit 2 "beta")))
           (MoreSamples.edit 2 "beta")).
  - reflexivity.
  - reflexivity.
  - repeat constructor.
Defined.

(** X17.  Every answer of the server becomes exactly one candidate, in the
    order of the response and without any filtering against the typed text;
    its label is the new text of the answer's edit when it has one, its own
    label otherwise. *)
Theorem lsp_one_candidate_per_answer (url : string)
    (post : string -> LSPClient.Body -> Promise LSPClient.AxiosResponse)
    (ctx : AutocompleteContext) (answers : list LSPClient.AutocompleteResponse) :
  post (url ++ "/completion") (LSPClient.requestBody ctx)
  = Resolved (LSPClient.mkAxiosResponse (Some answers)) ->
  exists r,
    LSPClient.autocomplete url post ctx = Resolved r
    /\ List.length (LSPClient.options r) = List.length answers
    /\ forall i res,
         nth_error answers i = Some res ->
         nth_error (LSPClient.options r) i
         = Some (LSPClient.mkCompletion
                   (match LSPClient.textEdit res with
                    | Some te => LSPClient.newText te
                    | None => LSPClient.label res
                    end)).
Proof.
  intros E.
  pose proof (autocomplete_settles url post ctx) as H.
  rewrite E in H. destruct H as (r & Hr & _ & Hopts & _).
  exists r. split; [exact Hr|]. simpl in Hopts. rewrite Hopts. split.
  - apply length_map.
  - intros i res Hi. rewrite nth_error_map, Hi. reflexivity.
Qed.

Lemma lsp_one_candidate_per_answer_witness :
  exists r,
    LSPClient.autocomplete "http://localhost:8080/lsp" MoreSamples.server_mixed
      (Sample.ctx_lsp 3)
    = Resolved r
    /\ List.length (LSPClient.options r) = 3%nat
    /\ forall i res,
         nth_error MoreSamples.answers_mixed i = Some res ->
         nth_error (LSPClient.options r) i
         = Some (LSPClient.mkCompletion
                   (match LSPClient.textEdit res with
                    | Some te => LSPClient.newText te
                    | None => LSPClient.label res
                    end)).
Proof.
  apply (lsp_one_candidate_per_answer "http://localhost:8080/lsp"
           MoreSamples.server_mixed (Sample.ctx_lsp 3) MoreSamples.answers_mixed).
  reflexivity.
Defined.

(** X18.  For a cursor at or after the start of its line, the posted
    character is never negative, is the offset within the line or one less,
    and is 0 only when the cursor is at the line start. *)
Theorem positionChar_bounds (ctx : AutocompleteContext) :
  line_from (lineAt (doc (state ctx)) (pos ctx)) <= pos ctx ->
  0 <= LSPClient.positionChar (LSPClient.requestBody ctx)
  /\ pos ctx - line_from (lineAt (doc (state ctx)) (pos ctx)) - 1
     <= LSPClient.positionChar (LSPClient.requestBody ctx)
     <= pos ctx - line_from (lineAt (doc (state ctx)) (pos ctx))
  /\ (LSPClient.positionChar (LSPClient.requestBody ctx) = 0
      <-> pos ctx = line_from (lineAt (doc (state ctx)) (pos ctx))).
Proof.
  unfold LSPClient.requestBody; simpl.
  set (d := pos ctx - line_from (lineAt (doc (state ctx)) (pos ctx))).
  intros H.
  pose proof (Zgt_cases (d - 1) 0) as G.
  destruct (d - 1 >? 0); lia.
Qed.

Lemma positionChar_bounds_witness :
  0 <= LSPClient.positionChar (LSPClient.requestBody (Sample.ctx_lsp 2))
  /\ 2 - 0 - 1 <= LSPClient.positionChar (LSPClient.requestBody (Sample.ctx_lsp 2))
     <= 2 - 0
  /\ (LSPClient.positionChar (LSPClient.requestBody (Sample.ctx_lsp 2)) = 0
      <-> 2 = 0).
Proof.
  apply (positionChar_bounds (Sample.ctx_lsp 2)).
  simpl. lia.
Defined.

(** * Properties of the demo application *)

Lemma alive_app (es es' : list App.Effect) :
  forall views, App.alive (es ++ es') views = App.alive es' (App.alive es views).
Proof.
  induction es as [|e es IH]; intros views; simpl; [reflexivity|].
  destruct e; apply IH.
Qed.

Lemma setCompletion_emits (page : App.Page) (w : App.World) :
  exists conf, App.setCompletion page w = App.emit (App.SetComplete conf) w.
Proof.
  unfold App.setCompletion.
  repeat match goal with |- context [if ?c then _ else _] => destruct c end;
    eexists; reflexivity.
Qed.

Lemma setLinter_emits (page : App.Page) (w : App.World) :
  exists conf, App.setLinter page w = App.emit (App.SetLinter conf) w.
Proof.
  unfold App.setLinter.
  repeat match goal with |- context [if ?c then _ else _] => destruct c end;
    eexists; reflexivity.
Qed.

Lemma applyConfiguration_oneEditor (page : App.Page) (w : App.World) (n : nat) :
  oneEditor w n -> oneEditor (App.applyConfiguration page w) (S n).
Proof.
  intros (He & Hc & Ha). unfold App.applyConfiguration.
  destruct (setCompletion_emits page w) as (c & ->).
  destruct (setLinter_emits page (App.emit (App.SetComplete c) w)) as (l & ->).
  unfold App.createEditor, App.emit; simpl. rewrite He; simpl. rewrite Hc.
  split; [reflexivity|]. split; [reflexivity|].
  cbn [App.effects]. rewrite !alive_app, Ha. simpl.
  destruct (Nat.eq_dec n n); [reflexivity | congruence].
Qed.

Lemma clicks_oneEditor (pages : list App.Page) :
  forall w n,
    oneEditor w n ->
    oneEditor (fold_left (fun w page => App.applyConfiguration page w) pages w)
      (n + List.length pages).
Proof.
  induction pages as [|page pages IH]; intros w n H; simpl.
  - now rewrite Nat.add_0_r.
  - rewrite <- Nat.add_succ_comm. apply IH.
    now apply applyConfiguration_oneEditor.
Qed.

Lemma calm_app (es es' : list App.Effect) :
  forall views,
    calm (es ++ es') views <-> calm es views /\ calm es' (App.alive es views).
Proof.
  induction es as [|e es IH]; intros views; simpl.
  - tauto.
  - destruct e; rewrite ?IH; tauto.
Qed.

Lemma calm_created (before after : list App.Effect) (v : nat) (views : list nat) :
  calm (before ++ App.Create v :: after) views -> App.alive before views = [].
Proof.
  intros H. apply calm_app in H. destruct H as (_ & H). simpl in H. tauto.
Qed.

Lemma calm_prefix (before : list App.Effect) :
  forall after views,
    calm (before ++ after) views ->
    (List.length views <= 1)%nat ->
    (List.length (App.alive before views) <= 1)%nat.
Proof.
  induction before as [|e before IH]; intros after views H Hlen; simpl.
  - exact Hlen.
  - simpl in H. destruct e.
    + now apply (IH after).
    + now apply (IH after).
    + apply (IH after); [exact H|].
      eapply Nat.le_trans; [apply remove_length_le | exact Hlen].
    + destruct H as (-> & H). apply (IH after); [exact H|]. simpl. lia.
Qed.

Lemma applyConfiguration_calm (page : App.Page) (w : App.World) (n : nat) :
  oneEditor w n ->
  calm (App.effects w) [] ->
  calm (App.effects (App.applyConfiguration page w)) [].
Proof.
  intros (He & Hc & Ha) Hcalm. unfold App.applyConfiguration.
  destruct (setCompletion_emits page w) as (c & ->).
  destruct (setLinter_emits page (App.emit (App.SetComplete c) w)) as (l & ->).
  unfold App.createEditor, App.emit; simpl. rewrite He; simpl.
  rewrite <- !app_assoc. simpl.
  apply calm_app. split; [exact Hcalm|]. rewrite Ha. simpl.
  destruct (Nat.eq_dec n n); [auto | congruence].
Qed.

Lemma clicks_calm (pages : list App.Page) :
  forall w n,
    oneEditor w n ->
    calm (App.effects w) [] ->
    calm (App.effects
            (fold_left (fun w page => App.applyConfiguration page w) pages w)) [].
Proof.
  induction pages as [|page pages IH]; intros w n H Hcalm; simpl.
  - exact Hcalm.
  - apply (IH _ (S n)).
    + now apply applyConfiguration_oneEditor.
    + now apply (applyConfiguration_calm page w n).
Qed.

(** X19.  However often the configuration is applied, exactly one editor
    view is alive afterwards, the one created last; and all along the way a
    view was created only when no view was alive, so that every earlier view
    had been destroyed before its successor was created and two views were
    never alive together. *)
Theorem one_editor_alive (pages : list App.Page) :
  App.editor (App.clicks pages) = Some (List.length pages)
  /\ App.alive (App.effects (App.clicks pages)) [] = [List.length pages]
  /\ App.created (App.clicks pages) = S (List.length pages)
  /\ (forall before v after,
        App.effects (App.clicks pages) = (before ++ App.Create v :: after)%list ->
        App.alive before [] = [])
  /\ (forall before after,
        App.effects (App.clicks pages) = (before ++ after)%list ->
        (List.length (App.alive before []) <= 1)%nat).
Proof.
  assert (H : oneEditor (App.clicks pages) (0 + List.length pages)).
  { apply clicks_oneEditor. repeat split. }
  assert (C : calm (App.effects (App.clicks pages)) []).
  { apply (clicks_calm pages App.load 0); repeat split. }
  destruct H as (He & Hc & Ha). simpl in *.
  split; [exact He|]. split; [exact Ha|]. split; [exact Hc|]. split.
  - intros before v after E. rewrite E in C. now apply calm_created in C.
  - intros before after E. rewrite E in C.
    apply (calm_prefix before after []); [exact C | simpl; lia].
Qed.

(** X20.  The completion source handed to the extension is the language
    server for the value "lsp" and the Prometheus server for the value
    "prometheus", never both; every other value, known or not, configures
    the extension without a source, as "offline" does.  The editor is left
    alone. *)
Theorem setCompletion_sources (page : App.Page) (w : App.World) :
  exists conf,
    App.setCompletion page w = App.emit (App.SetComplete conf) w
    /\ (App.completion page = "lsp" ->
        conf = Some (App.mkCompleteConfiguration
                       (Some "http://localhost:8080/lsp") None))
    /\ (App.completion page = "prometheus" ->
        conf = Some (App.mkCompleteConfiguration
                       None (Some "http://localhost:9090")))
    /\ (App.completion page <> "lsp" -> App.completion page <> "prometheus" ->
        conf = None).
Proof.
  unfold App.setCompletion.
  destruct (String.eqb_spec (App.completion page) "offline") as [E|_].
  { eexists. split; [reflexivity|]. rewrite E.
    repeat split; intros; congruence. }
  destruct (String.eqb_spec (App.completion page) "lsp") as [E|N1].
  { eexists. split; [reflexivity|]. rewrite E.
    repeat split; intros; congruence. }
  destruct (String.eqb_spec (App.completion page) "prometheus") as [E|N2].
  { eexists. split; [reflexivity|]. rewrite E.
    repeat split; intros; congruence. }
  eexists. split; [reflexivity|]. repeat split; intros; congruence.
Qed.

Lemma setCompletion_sources_witness :
  exists conf,
    App.setCompletion (App.mkPage "grafana" "lsp")
      (App.mkWorld None 0 [])
    = App.emit (App.SetComplete conf) (App.mkWorld None 0 [])
    /\ conf = None.
Proof.
  destruct (setCompletion_sources (App.mkPage "grafana" "lsp")
              (App.mkWorld None 0 []))
    as (conf & E & _ & _ & Hother).
  exists conf. split; [exact E|].
  apply Hother; discriminate.
Defined.

(** X21.  The linter knows one remote source only: the value "lsp"
    configures the language server, every other value (also "prometheus")
    configures the linter without a source. *)
Theorem setLinter_sources (page : App.Page) (w : App.World) :
  exists conf,
    App.setLinter page w = App.emit (App.SetLinter conf) w
    /\ (App.linter page = "lsp" ->
        conf = Some (App.mkLintConfiguration (Some "http://localhost:8080/lsp")))
    /\ (App.linter page <> "lsp" -> conf = None).
Proof.
  unfold App.setLinter.
  destruct (String.eqb_spec (App.linter page) "offline") as [E|_].
  { eexists. split; [reflexivity|]. rewrite E.
    repeat split; intros; congruence. }
  destruct (String.eqb_spec (App.linter page) "lsp") as [E|N1].
  { eexists. split; [reflexivity|]. rewrite E.
    repeat split; intros; congruence. }
  eexists. split; [reflexivity|]. repeat split; intros; congruence.
Qed.

Lemma setLinter_sources_witness :
  exists conf,
    App.setLinter (App.mkPage "lsp" "prometheus") (App.mkWorld None 0 [])
    = App.emit (App.SetLinter conf) (App.mkWorld None 0 [])
    /\ conf = None.
Proof.
  destruct (setLinter_sources (App.mkPage "lsp" "prometheus")
              (App.mkWorld None 0 []))
    as (conf & E & _ & Hother).
  exists conf. split; [exact E|].
  apply Hother; discriminate.
Defined.

(** X22.  Applying the configuration sets the completion source, then the
    linter source, then destroys the current editor and creates a new one,
    in this order: the new editor is created after both sources are set. *)
Theorem applyConfiguration_order (page : App.Page) (w : App.World) (current : nat) :
  App.editor w = Some current ->
  exists c l,
    App.effects (App.applyConfiguration page w)
    = (App.effects w
       ++ [App.SetComplete c; App.SetLinter l;
           App.Destroy current; App.Create (App.created w)])%list
    /\ App.editor (App.applyConfiguration page w) = Some (App.created w).
Proof.
  intros He. unfold App.applyConfiguration.
  destruct (setCompletion_emits page w) as (c & ->).
  destruct (setLinter_emits page (App.emit (App.SetComplete c) w)) as (l & ->).
  exists c, l. unfold App.createEditor, App.emit; simpl. rewrite He; simpl.
  split; [|reflexivity].
  now rewrite <- !app_assoc.
Qed.

Lemma applyConfiguration_order_witness :
  exists c l,
    App.effects (App.applyConfiguration (App.mkPage "lsp" "offline") App.load)
    = (App.effects App.load
       ++ [App.SetComplete c; App.SetLinter l; App.Destroy 0; App.Create 1])%list
    /\ App.editor (App.applyConfiguration (App.mkPage "lsp" "offline") App.load)
       = Some 1%nat.
Proof.
  apply (applyConfiguration_order (App.mkPage "lsp" "offline") App.load 0).
  reflexivity.
Defined.
